(** * ggplot build pipeline: layers, stats and discrete position scales

    A shallow embedding of [ggplot/stats/stat.py], [ggplot/layer.py] and
    [ggplot/scales/scale_xy.py], followed by the properties of the
    specification that concern them.

    Python objects are records, mutation is explicit state passing, an
    exception is the [Raise] branch of [result].  Floating point numbers
    are rationals ([Qc]); a missing entry (NaN, None) is [VNA]. *)

From Stdlib Require Import ZArith QArith Qcanon Qround.
From stdpp Require Import base numbers option list strings gmap sets.


(** ** Python, pandas and numpy values *)

Module py.

(** A cell of a column, an element of a list. *)
Inductive value :=
| VNum (q : Qc)
| VStr (s : string)
| VBool (b : bool)
| VNA.

#[global] Instance value_eq_dec : EqDecision value.
Proof. solve_decision. Defined.

Definition of_Z (z : Z) : value := VNum (Q2Qc (inject_Z z)).

(** The element type of a column. *)
Inductive dtype := int64 | float64 | bool_ | object_ | category | datetime64.

#[global] Instance dtype_eq_dec : EqDecision dtype.
Proof. solve_decision. Defined.

(** The messages of [GgplotError], one constructor per format string of
    the sources; the messages of the other exceptions are not kept. *)
Inductive message :=
| AesLength
    (* "Aesthetics must either be length one, or the same length as the data" *)
| UnknownAes (ae : string)
    (* "Do not know how to deal with aesthetic '{}'" *)
| MissingAes (name : string) (missing : gset string)
    (* "{} requires the following missing aesthetics: {}" *)
| LostLimits.
    (* "Lost, do not know what the limits are." *)

Inductive exn :=
| GgplotError (m : message)
| KeyError (key : string)
| NameError (name : string)
| TypeError
| ValueError
| IndexError.

Inductive result (A : Type) :=
| Ok (a : A)
| Raise (e : exn).
Arguments Ok {A} a.
Arguments Raise {A} e.

#[global] Instance result_ret : MRet result := @Ok.
#[global] Instance result_bind : MBind result :=
  λ A B f m, match m with Ok a => f a | Raise e => Raise e end.

(** [None] or a list: what the attributes [range], [range_c] and
    [_limits] of a scale hold. *)
Definition pylist := option (list value).

(** Truth value of [None] and of a list. *)
Definition truthy (o : pylist) : bool :=
  match o with
  | Some (_ :: _) => true
  | _ => false
  end.

(** [pd.Series]: a dtype and the cells. *)
Record Series := mkSeries { s_dtype : dtype; s_values : list value }.

(** [pd.DataFrame]: the length of the index and the columns, in order. *)
Record DataFrame := mkDataFrame {
  nrows : nat;
  columns : list (string * Series)
}.

(** [pd.DataFrame()] *)
Definition empty_frame : DataFrame := mkDataFrame 0 [].

Fixpoint assoc {A} (k : string) (l : list (string * A)) : option A :=
  match l with
  | [] => None
  | (k', a) :: l => if decide (k = k') then Some a else assoc k l
  end.

(** [d[k] = a] on a dict kept in insertion order. *)
Fixpoint assoc_set {A} (k : string) (a : A) (l : list (string * A))
  : list (string * A) :=
  match l with
  | [] => [(k, a)]
  | (k', a') :: l =>
      if decide (k = k') then (k, a) :: l else (k', a') :: assoc_set k a l
  end.

(** [col in df] *)
Definition has_column (col : string) (df : DataFrame) : bool :=
  bool_decide (is_Some (assoc col (columns df))).

(** [df[col]] *)
Definition getitem (df : DataFrame) (col : string) : result Series :=
  match assoc col (columns df) with
  | Some s => Ok s
  | None => Raise (KeyError col)
  end.

(** [df[col] = s].  A frame without columns and without index takes the
    length of its first column. *)
Definition setitem (df : DataFrame) (col : string) (s : Series) : DataFrame :=
  mkDataFrame
    (match columns df, nrows df with
     | [], O => length (s_values s)
     | _, n => n
     end)
    (assoc_set col s (columns df)).

(** [df[col] = v] for a scalar [v]: one copy per row. *)
Definition setitem_scalar (df : DataFrame) (col : string) (v : value)
  : DataFrame :=
  mkDataFrame (nrows df)
    (assoc_set col (mkSeries int64 (replicate (nrows df) v)) (columns df)).

(** [df[cols]] for a list of column names present in [df]. *)
Definition select (df : DataFrame) (cols : list string) : DataFrame :=
  mkDataFrame (nrows df)
    (omap (λ c, (λ s, (c, s)) <$> assoc c (columns df)) cols).

(** A column seen as a frame of one column. *)
Definition to_frame (col : string) (s : Series) : DataFrame :=
  mkDataFrame (length (s_values s)) [(col, s)].

(** [pd.concat([a, b], axis=1)] on frames sharing their index. *)
Definition concat_columns (a b : DataFrame) : DataFrame :=
  mkDataFrame (Nat.max (nrows a) (nrows b)) (columns a ++ columns b).

(** The rows of a frame, each the list of its cells in column order. *)
Definition rows (df : DataFrame) : list (list value) :=
  (λ i, (λ cs, default VNA (s_values cs.2 !! i)) <$> columns df)
    <$> seq 0 (nrows df).

End py.
Export py.

(** ** Aesthetic mappings ([ggplot.components.aes]) *)

Module aes.

(** The value an aesthetic is mapped to: a string (a column reference or
    a dot-notation placeholder), a list-like constant, or another scalar. *)
Inductive aes_value :=
| AesStr (s : string)
| AesList (l : list value)
| AesScalar (v : value).

(** The [aes] dict, in iteration order. *)
Definition aes := list (string * aes_value).

(** Modelled from the spec: the test behind [is_calculated_aes], absent
    from the sources.  A computed aesthetic is a string wrapped as
    [..name..]. *)
Definition is_calculated (v : aes_value) : bool :=
  match v with
  | AesStr s =>
      let n := String.length s in
      (4 <? n)%nat && String.prefix ".." s
      && bool_decide (String.substring (n - 2) 2 s = "..")
  | _ => false
  end.

(** Modelled from the spec: [is_calculated_aes], absent from the sources;
    the names of the aesthetics whose value is a computed placeholder. *)
Definition is_calculated_aes (aesthetics : aes) : list string :=
  (filter (λ kv, is_calculated kv.2) aesthetics).*1.

End aes.

(** ** Helpers of [ggplot.utils] *)

Module utils.
Import aes.

(** Modelled from the spec: the constant [discrete_dtypes], absent from
    the sources.  A column is discrete when its elements are categorical,
    strings or booleans, and not when they are numbers. *)
Definition discrete_dtypes : list dtype := [category; object_; bool_].

(** Modelled from the spec: the constant [continuous_dtypes], absent from
    the sources; the dtypes of numbers. *)
Definition continuous_dtypes : list dtype := [int64; float64].

(** Modelled from the spec: [defaults], absent from the sources; the
    entries of [d1], then those of [d2] whose key [d1] lacks. *)
Definition defaults {A} (d1 d2 : list (string * A)) : list (string * A) :=
  d1 ++ filter (λ kv, assoc kv.1 d1 = None) d2.

(** Position of the first occurrence. *)
Fixpoint index_of {A} `{EqDecision A} (x : A) (l : list A) : option nat :=
  match l with
  | [] => None
  | y :: l => if decide (x = y) then Some 0 else S <$> index_of x l
  end.

(** Modelled from the spec: [ninteraction(df, drop=True)], absent from the
    sources; a dense enumeration, from 1, of the distinct combinations of
    values found in the rows of [df]. *)
Definition ninteraction (df : DataFrame) : Series :=
  let keys := rows df in
  let levels := remove_dups keys in
  mkSeries int64
    ((λ k, of_Z (1 + Z.of_nat (default 0 (index_of k levels)))) <$> keys).

(** Modelled from the spec: [match], absent from the sources; for each
    element of [v1] its position in [v2], from 0, and NA ([None]) for an
    element [v2] does not hold. *)
Definition match_ (v1 v2 : list value) : list (option Z) :=
  (λ x, Z.of_nat <$> index_of x v2) <$> v1.

(** Modelled from the spec: [check_required_aesthetics], absent from the
    sources; raises when a required aesthetic is not among [present]. *)
Definition check_required_aesthetics
    (required : gset string) (present : list string) (name : string)
  : result unit :=
  let missing_aes := required ∖ list_to_set present in
  if decide (missing_aes = ∅) then Ok ()
  else Raise (GgplotError (MissingAes name missing_aes)).

End utils.

(** ** [ggplot/stats/stat.py] *)

Module stat.
Import aes.

(** What is shared by the whole process: the attribute
    [_warnings_printed] of the class [stat] (one set for all instances,
    never copied by [__deepcopy__], which copies the instance dict only)
    and what was written to the standard error. *)
Record process := mkProcess {
  _warnings_printed : gset string;
  stderr : list string
}.

(** The state when the class body has run. *)
Definition process_start : process := mkProcess ∅ [].

(** An instance of a stat; [_calculate_groups] is the transform of the
    subclass, [__name__] the name of its class. *)
Record stat (Scales : Type) := mkStat {
  __name__ : string;
  REQUIRED_AES : gset string;
  DEFAULT_AES : aes;
  params : gmap string value;
  retransform : bool;
  _calculate_groups : DataFrame → Scales → result DataFrame
}.
Arguments mkStat {Scales} _ _ _ _ _ _.
Arguments __name__ {Scales} _.
Arguments REQUIRED_AES {Scales} _.
Arguments DEFAULT_AES {Scales} _.
Arguments params {Scales} _.
Arguments retransform {Scales} _.
Arguments _calculate_groups {Scales} _ _ _.

Definition _print_warning {Scales} (self : stat Scales) (message : string)
    (σ : process) : process :=
  if decide (message ∈ _warnings_printed σ) then σ
  else mkProcess ({[message]} ∪ _warnings_printed σ) (stderr σ ++ [message]).

Definition _verify_aesthetics {Scales} (self : stat Scales) (data : DataFrame)
  : result unit :=
  let missing_aes := REQUIRED_AES self ∖ list_to_set (columns data).*1 in
  if decide (missing_aes = ∅) then Ok ()
  else Raise (GgplotError (MissingAes (__name__ self) missing_aes)).

End stat.

(** ** [ggplot/layer.py] *)

Module layer.
Import aes utils.

(** The geom of a layer: only [manual_aes] is read here. *)
Record geom := mkGeom { manual_aes : gmap string value }.

(** The plot a layer belongs to: only [mapping] and [scales] are read. *)
Record ggplot (Scales : Type) := mkGgplot {
  plot_mapping : aes;
  plot_scales : Scales
}.
Arguments mkGgplot {Scales} _ _.
Arguments plot_mapping {Scales} _.
Arguments plot_scales {Scales} _.

Record layer (Scales : Type) := mkLayer {
  layer_geom : geom;
  layer_stat : stat.stat Scales;
  data : option DataFrame;
  mapping : aes;
  inherit_aes : bool;
  group : option aes_value
}.
Arguments mkLayer {Scales} _ _ _ _ _ _.
Arguments layer_geom {Scales} _.
Arguments layer_stat {Scales} _.
Arguments data {Scales} _.
Arguments mapping {Scales} _.
Arguments inherit_aes {Scales} _.
Arguments group {Scales} _.

(** The calls [calc_statistic] makes, in order. *)
Inductive call :=
| check_required (present : list string)
| calculate_groups (data : DataFrame).

Section methods.

(** The collection of scales of the plot, and the collaborators that are
    not part of these sources: [scales_add_defaults] (which adds scales to
    [plot.scales] and returns nothing), pandas' [DataFrame.update], and
    [strip_dots], a name [layer.py] uses without importing it. *)
Variable Scales : Type.
Variable scales_add_defaults : Scales → DataFrame → aes → Scales.
Variable update : DataFrame → list (string * list value) → DataFrame.
Variable strip_dots : aes_value → result string.

Definition layer_mapping (self : layer Scales) (mapping_ : aes) : aes :=
  let aesthetics :=
    if inherit_aes self then defaults (mapping self) mapping_
    else mapping self in
  let manual := dom (manual_aes (layer_geom self)) in
  let calculated := is_calculated_aes aesthetics in
  filter (λ kv, (kv.1 ∉ manual) ∧ (kv.1 ∉ calculated)) aesthetics.

(** The first loop of [compute_aesthetics]: the columns to rename, the
    names to give them, and the settings. *)
Fixpoint sort_aesthetics (len_data : nat) (items : aes)
    (colnames aenames : list string) (settings : list (string * list value))
  : result (list string * list string * list (string * list value)) :=
  match items with
  | [] => Ok (colnames, aenames, settings)
  | (ae, col) :: items =>
      match col with
      | AesStr c =>
          sort_aesthetics len_data items
            (colnames ++ [c]) (aenames ++ [ae]) settings
      | AesList l =>
          let n := length l in
          if bool_decide (n ≠ len_data) || bool_decide (n ≠ 1)
          then Raise (GgplotError AesLength)
          else sort_aesthetics len_data items
                 colnames aenames (assoc_set ae l settings)
      | AesScalar _ => Raise (GgplotError (UnknownAes ae))
      end
  end.

(** The second loop: [evaled[ae] = data[col]]. *)
Fixpoint copy_columns (data_ : DataFrame) (pairs : list (string * string))
    (evaled : DataFrame) : result DataFrame :=
  match pairs with
  | [] => Ok evaled
  | (ae, col) :: pairs =>
      s ← getitem data_ col;
      copy_columns data_ pairs (setitem evaled ae s)
  end.

(** Returns the frame, and [plot.scales] as [scales_add_defaults] left it. *)
Definition compute_aesthetics
    (self : layer Scales) (data_ : DataFrame) (plot : ggplot Scales)
  : result (DataFrame * Scales) :=
  let aesthetics := layer_mapping self (plot_mapping plot) in
  let aesthetics :=
    match group self with
    | Some g => assoc_set "group" g aesthetics
    | None => aesthetics
    end in
  let scales := scales_add_defaults (plot_scales plot) data_ aesthetics in
  '(colnames, aenames, settings) ←
    sort_aesthetics (nrows data_) aesthetics [] [] [];
  evaled ← copy_columns data_ (zip aenames colnames) empty_frame;
  let evaled := update evaled settings in
  evaled ←
    (if bool_decide (nrows data_ = 0) && bool_decide (settings ≠ [])
     then Ok (setitem_scalar evaled "PANEL" (of_Z 1))
     else s ← getitem data_ "PANEL"; Ok (setitem evaled "PANEL" s));
  Ok (evaled, scales).

(** Returns the calls made, in order, and the outcome. *)
Definition calc_statistic
    (self : layer Scales) (data_ : DataFrame) (scales : Scales)
  : list call * result DataFrame :=
  if bool_decide (nrows data_ = 0) then ([], Ok empty_frame)
  else
    let st := layer_stat self in
    let present := (columns data_).*1 ++ elements (dom (stat.params st)) in
    match check_required_aesthetics
            (stat.REQUIRED_AES st) present (stat.__name__ st) with
    | Raise e => ([check_required present], Raise e)
    | Ok _ =>
        ([check_required present; calculate_groups data_],
         stat._calculate_groups st data_ scales)
    end.

(** The aesthetics assembled from the layer, the plot and the stat. *)
Definition stat_aesthetics (self : layer Scales) (plot : ggplot Scales)
  : aes :=
  let aesthetics := mapping self in
  let aesthetics :=
    if inherit_aes self then defaults aesthetics (plot_mapping plot)
    else aesthetics in
  defaults aesthetics (stat.DEFAULT_AES (layer_stat self)).

(** The loop of [map_statistic] over the computed aesthetics. *)
Fixpoint collect_computed (aesthetics : aes) (data_ : DataFrame)
    (names : list string) (new : list (string * aes_value))
    (stat_data : DataFrame)
  : result (list (string * aes_value) * DataFrame) :=
  match names with
  | [] => Ok (new, stat_data)
  | ae :: names =>
      v ← from_option Ok (Raise (KeyError ae)) (assoc ae aesthetics);
      col ← strip_dots v;
      s ← getitem data_ col;
      collect_computed aesthetics data_ names
        (assoc_set ae (AesStr col) new) (setitem stat_data ae s)
  end.

(** Returns the frame and [plot.scales].  The branch on
    [self.stat.retransform] of the source is a [pass]. *)
Definition map_statistic
    (self : layer Scales) (data_ : DataFrame) (plot : ggplot Scales)
  : result (DataFrame * Scales) :=
  if bool_decide (nrows data_ = 0) then Ok (empty_frame, plot_scales plot)
  else
    let aesthetics := stat_aesthetics self plot in
    '(new, stat_data) ←
      collect_computed aesthetics data_ (is_calculated_aes aesthetics)
        [] empty_frame;
    if bool_decide (new = []) then Ok (data_, plot_scales plot)
    else
      let scales := scales_add_defaults (plot_scales plot) data_ new in
      Ok (concat_columns data_ stat_data, scales).

End methods.

Arguments layer_mapping {Scales} _ _.
Arguments compute_aesthetics {Scales} _ _ _ _ _.
Arguments calc_statistic {Scales} _ _ _.
Arguments stat_aesthetics {Scales} _ _.
Arguments map_statistic {Scales} _ _ _ _ _.

Definition discrete_columns (df : DataFrame) (ignore : list string)
  : list string :=
  (filter (λ cs, (s_dtype cs.2 ∈ discrete_dtypes) ∧ (cs.1 ∉ ignore))
     (columns df)).*1.

(** The frame is changed in place and returned; [data['group']] is
    there in the last branch, which [has_column] guards. *)
Definition add_group (data_ : DataFrame) : DataFrame :=
  if bool_decide (nrows data_ = 0) then data_
  else if negb (has_column "group" data_) then
    let disc := discrete_columns data_ ["label"] in
    if bool_decide (disc ≠ [])
    then setitem data_ "group" (ninteraction (select data_ disc))
    else setitem_scalar data_ "group" (of_Z 1)
  else
    match assoc "group" (columns data_) with
    | Some g => setitem data_ "group" (ninteraction (to_frame "group" g))
    | None => data_
    end.

End layer.

(** ** numpy on lists of numbers *)

Module np.

Definition Qc_min (a b : Qc) : Qc := if decide (a ≤ b)%Qc then a else b.
Definition Qc_max (a b : Qc) : Qc := if decide (a ≤ b)%Qc then b else a.

(** The numbers a list holds; a string is a [TypeError], and a missing
    value makes the integer conversion that follows a [ValueError]. *)
Definition as_numbers (l : list value) : result (list Qc) :=
  mapM (λ v, match v with
             | VNum q => Ok q
             | VBool b => Ok (if b then 1%Qc else 0%Qc)
             | VStr _ => Raise TypeError
             | VNA => Raise ValueError
             end) l.

(** [np.min], [np.max] *)
Definition min (l : list value) : result Qc :=
  nums ← as_numbers l;
  match nums with
  | [] => Raise ValueError
  | x :: nums => Ok (foldr Qc_min x nums)
  end.

Definition max (l : list value) : result Qc :=
  nums ← as_numbers l;
  match nums with
  | [] => Raise ValueError
  | x :: nums => Ok (foldr Qc_max x nums)
  end.

(** [np.arange(a, b)] and Python's [range(a, b)] as lists. *)
Definition arange (a b : Z) : list Z := seqZ a (b - a).

(** [seq[i]] for one index: a negative index counts from the end, an
    index out of range or missing is an [IndexError]. *)
Definition take_one (seq : list Z) (i : option Z) : result Z :=
  let n := Z.of_nat (length seq) in
  match i with
  | None => Raise IndexError
  | Some i =>
      let j := if bool_decide (i < 0)%Z then (n + i)%Z else i in
      if bool_decide (0 ≤ j < n)%Z
      then from_option Ok (Raise IndexError) (seq !! Z.to_nat j)
      else Raise IndexError
  end.

(** [seq[idx]] for a list of indices. *)
Definition take (seq : list Z) (idx : list (option Z)) : result (list Z) :=
  mapM (take_one seq) idx.

End np.

(** ** [ggplot/scales/scale_xy.py] *)

Module scale_xy.
Import utils.

(** A discrete position scale: [_limits] and [range] of [scale_discrete],
    and its own [range_c]. *)
Record scale_position_discrete := mkScale {
  _limits : pylist;
  range : pylist;
  range_c : pylist
}.

Definition set_range (r : pylist) (self : scale_position_discrete) :=
  mkScale (_limits self) r (range_c self).
Definition set_range_c (r : pylist) (self : scale_position_discrete) :=
  mkScale (_limits self) (range self) r.

(** Modelled from the spec: [scale_continuous.train], absent from the
    sources, bound to the class as [train_continuous]; it extends the pair
    (min, max) held by [self.range] by the numbers of the series, missing
    entries ignored. A column of a continuous dtype holds numbers and
    missing entries only. *)
Definition train_continuous (self : scale_position_discrete) (series : Series)
  : result scale_position_discrete :=
  match omap (λ v, match v with VNum q => Some q | _ => None end)
          (s_values series) with
  | [] => Ok self
  | x :: xs =>
      let mn := foldr np.Qc_min x xs in
      let mx := foldr np.Qc_max x xs in
      match range self with
      | None => Ok (set_range (Some [VNum mn; VNum mx]) self)
      | Some r =>
          nums ← np.as_numbers r;
          match nums with
          | [_mn; _mx] =>
              Ok (set_range
                    (Some [VNum (np.Qc_min mn _mn); VNum (np.Qc_max mx _mx)])
                    self)
          | _ => Raise ValueError
          end
      end
  end.

(** Modelled from the spec: how a level set grows, for
    [scale_discrete.train]; the levels [old], then the values of [new]
    they lack, once each. *)
Definition extend_levels (old new : list value) : list value :=
  foldl (λ acc v, if decide (v ∈ acc) then acc else acc ++ [v]) old new.

(** Modelled from the spec: [scale_discrete.train], absent from the
    sources; it extends the observed level set held by [self.range]. *)
Definition scale_discrete_train (self : scale_position_discrete)
    (series : Series) : result scale_position_discrete :=
  Ok (set_range
        (Some (extend_levels (default [] (range self)) (s_values series)))
        self).

Definition reset (self : scale_position_discrete) : scale_position_discrete :=
  set_range_c None self.

Definition train (self : scale_position_discrete) (series : Series)
  : result scale_position_discrete :=
  if bool_decide (s_dtype series ∈ continuous_dtypes) then
    let backup := range self in
    let self := set_range (range_c self) self in
    self ← train_continuous self series;
    Ok (set_range backup (set_range_c (range self) self))
  else
    scale_discrete_train self series.

(** The property [limits]; [Ok None] is Python's [None].  Floor and
    ceiling are taken on the number itself; numpy takes them on its
    float64, which is the same number up to 2^53 in magnitude. *)
Definition limits (self : scale_position_discrete) : result pylist :=
  if truthy (_limits self) then Ok (_limits self)
  else if truthy (range self) then Ok (range self)
  else if truthy (range_c self) then
    let rc := default [] (range_c self) in
    lo ← np.min rc;
    hi ← np.max rc;
    let mn := Qfloor (this lo) in
    let mx := Qceiling (this hi) in
    Ok (Some (of_Z <$> np.arange mn (mx + 1)))
  else
    (* [GgplotError(...)] is built and dropped: the property ends without
       a [return] *)
    Ok None.

(** The limits [map] works with: its argument, or the property when the
    argument is [None] or empty. *)
Definition effective_limits (self : scale_position_discrete)
    (limits_ : pylist) : result pylist :=
  if negb (truthy limits_) then limits self else Ok limits_.

Definition map (self : scale_position_discrete) (series : Series)
    (limits_ : pylist) : result Series :=
  limits_ ← effective_limits self limits_;
  if bool_decide (s_dtype series ∈ discrete_dtypes) then
    l ← from_option Ok (Raise TypeError) limits_;
    let seq := np.arange 1 (Z.of_nat (length l) + 1) in
    codes ← np.take seq (match_ (s_values series) l);
    Ok (mkSeries int64 (of_Z <$> codes))
  else Ok series.

End scale_xy.

(** ** [ggplot/stats/stat.py]: construction of a stat *)

Module stat_object.

(** The loop of [_find_stat_params] over [list(kwargs.keys())]: a keyword
    that names a default parameter moves from [kwargs] to [d].  The key is
    in [kwargs] when [pop] runs, so [pop] raises nothing. *)
Definition _find_stat_params (DEFAULT_PARAMS kwargs : gmap string value)
  : gmap string value * gmap string value :=
  foldl (λ '(d, kwargs) k,
           if decide (is_Some (DEFAULT_PARAMS !! k)) then
             match kwargs !! k with
             | Some v => (<[k := v]> d, delete k kwargs)
             | None => (d, kwargs)
             end
           else (d, kwargs))
        (∅, kwargs) (elements (dom kwargs)).

(** What [__init__] leaves in the instance: [params] and the two entries
    of [_cache]. *)
Record instance := mkInstance {
  params : gmap string value;
  _cache_args : list value;
  _cache_kwargs : gmap string value
}.

(** [params] is a copy of [DEFAULT_PARAMS] updated with the recognised
    keywords. *)
Definition __init__ (DEFAULT_PARAMS : gmap string value)
    (args : list value) (kwargs : gmap string value) : instance :=
  let '(_params, kwargs) := _find_stat_params DEFAULT_PARAMS kwargs in
  mkInstance (_params ∪ DEFAULT_PARAMS) args kwargs.

Section radd.

(** The plot, the geoms, and [getattr(ggplot.geoms, name)]: the class of
    a geom, called with the cached arguments, or the error of the
    lookup.  What [__radd__] then writes into the geom stays in the
    geom. *)
Variables Plot Geom : Type.
Variable geoms :
  string → result (list value → gmap string value → result Geom).

(** [layer] is not bound in [stat.py]: the call that would build the
    layer raises before the layer is appended to the plot. *)
Definition __radd__ (self : instance) (gg : Plot) : result Plot :=
  g ← from_option Ok (Raise (KeyError "geom")) (params self !! "geom");
  name ← match g with
          | VStr s => Ok ("geom_" +:+ s)
          | _ => Raise TypeError
          end;
  _g ← geoms name;
  _geom ← _g (_cache_args self) (_cache_kwargs self);
  position ←
    from_option Ok (Raise (KeyError "position")) (params self !! "position");
  Raise (NameError "layer").

End radd.

End stat_object.

(** ** [ggplot/scales/scale_xy.py]: the continuous position scale *)

Module scale_position_continuous.

(** What [map] reads of the scale: the property [limits] of
    [scale_continuous] (its outcome), the out-of-bounds function [oob] and
    [na_value]. *)
Record scale_position_continuous := mkScale {
  limits : result pylist;
  oob : Series → pylist → result Series;
  na_value : value
}.

(** [scaled[pd.isnull(scaled)] = na_value] *)
Definition fill_null (na_value : value) (scaled : Series) : Series :=
  mkSeries (s_dtype scaled)
    ((λ v, if decide (v = VNA) then na_value else v) <$> s_values scaled).

Definition map (self : scale_position_continuous) (series : Series)
    (limits_ : pylist) : result Series :=
  if bool_decide (length (s_values series) = 0) then Ok series
  else
    limits_ ← (if negb (truthy limits_) then limits self else Ok limits_);
    scaled ← oob self series limits_;
    Ok (fill_null (na_value self) scaled).

End scale_position_continuous.

(** ** [ggplot/geoms]: what the geoms draw *)

Module geom.

(** An entry of [pinfo]: [None], a scalar, or a list. *)
Inductive pyobj :=
| PNone
| PVal (v : value)
| PList (l : list value).

#[global] Instance pyobj_eq_dec : EqDecision pyobj.
Proof. solve_decision. Defined.

(** [d.pop(k)] *)
Definition pop (d : gmap string pyobj) (k : string)
  : result (pyobj * gmap string pyobj) :=
  match d !! k with
  | Some o => Ok (o, delete k d)
  | None => Raise (KeyError k)
  end.

(** [d[k]] *)
Definition get (d : gmap string pyobj) (k : string) : result pyobj :=
  from_option Ok (Raise (KeyError k)) (d !! k).

(** [len(o)]: a list or a string has a length. *)
Definition len (o : pyobj) : result nat :=
  match o with
  | PList l => Ok (length l)
  | PVal (VStr s) => Ok (String.length s)
  | _ => Raise TypeError
  end.

(** [o[i]] for [i] from 0: an element of a list, a character of a
    string. *)
Definition item (o : pyobj) (i : nat) : result value :=
  match o with
  | PList l => from_option Ok (Raise IndexError) (l !! i)
  | PVal (VStr s) =>
      from_option (λ c, Ok (VStr (String c EmptyString))) (Raise IndexError)
        (String.get i s)
  | _ => Raise TypeError
  end.

(** An element of a list as an object of its own: the missing element
    is [None]. *)
Definition of_value (v : value) : pyobj :=
  match v with
  | VNA => PNone
  | _ => PVal v
  end.

End geom.

(** ** [ggplot/geoms/geom_path.py] *)

Module geom_path.
Import geom.

(** A segment: its two end points. *)
Definition segment : Type := (value * value) * (value * value).

(** The [LineCollection] handed to the axes. *)
Record LineCollection := mkLineCollection {
  segments : list segment;
  color : pyobj;
  linewidths : pyobj;
  linestyles : pyobj
}.

(** The comprehension of [draw]: a segment from each point to the next. *)
Definition lines (x y : pyobj) : result (list segment) :=
  n ← len x;
  mapM (λ i,
          x0 ← item x i; y0 ← item y i;
          x1 ← item x (i + 1); y1 ← item y (i + 1);
          Ok ((x0, y0), (x1, y1)))
       (seq 0 (n - 1)).

Section draw.

(** [make_color_tuples] of [ggplot.utils] is not part of these sources. *)
Variable make_color_tuples : pyobj → pyobj → result pyobj.

(** Returns the collections of the axes after [ax.add_collection]. *)
Definition draw (pinfo : gmap string pyobj) (ax : list LineCollection)
  : result (list LineCollection) :=
  '(x, pinfo) ← pop pinfo "x";
  '(y, pinfo) ← pop pinfo "y";
  c ← get pinfo "color";
  alpha ← get pinfo "alpha";
  c ← make_color_tuples c alpha;
  let pinfo := <["color" := c]> pinfo in
  segs ← lines x y;
  c ← get pinfo "color";
  lw ← get pinfo "linewidth";
  ls ← get pinfo "linestyle";
  Ok (ax ++ [mkLineCollection segs c lw ls]).

End draw.

End geom_path.

(** ** [ggplot/geoms/geom_hline.py] *)

Module geom_hline.
Import geom.

(** The call [ax.hlines(y, xmin, xmax, **pinfo)]. *)
Record hlines := mkHlines {
  y : pyobj;
  xmin : pyobj;
  xmax : pyobj;
  kwargs : gmap string pyobj
}.

Section draw.

(** The scales, their method [coord_range], and [hex_to_rgba] of
    [ggplot.utils], which is not part of these sources. *)
Variable Scale : Type.
Variable coord_range : Scale → result pyobj.
Variable hex_to_rgba : pyobj → pyobj → result pyobj.

Definition draw (pinfo : gmap string pyobj) (scales : gmap string Scale)
  : result hlines :=
  let pinfo := delete "y" pinfo in
  '(y, pinfo) ← pop pinfo "yintercept";
  '(xmin, pinfo) ← pop pinfo "xmin";
  '(xmax, pinfo) ← pop pinfo "xmax";
  x_scale ← from_option Ok (Raise (KeyError "x")) (scales !! "x");
  range_x ← coord_range x_scale;
  xmin ← (if decide (xmin = PNone)
           then v ← item range_x 0; Ok (of_value v)
           else Ok xmin);
  xmax ← (if decide (xmax = PNone)
           then v ← item range_x 1; Ok (of_value v)
           else Ok xmax);
  '(alpha, pinfo) ← pop pinfo "alpha";
  c ← get pinfo "color";
  c ← hex_to_rgba c alpha;
  Ok (mkHlines y xmin xmax (<["color" := c]> pinfo)).

End draw.

Arguments draw {Scale} _ _ _ _.

End geom_hline.

(** ** Notions the properties are stated with *)

(** A run of the process: [_print_warning] called on stat instances,
    one call after the other. *)
Definition print_warnings {Scales} (calls : list (stat.stat Scales * string))
    (σ : stat.process) : stat.process :=
  foldl (λ σ c, stat._print_warning c.1 c.2 σ) σ calls.

(** The set of printed messages mirrors the standard error, where no
    message stands twice. *)
Definition mirrored (σ : stat.process) : Prop :=
  (∀ m, m ∈ stat._warnings_printed σ ↔ m ∈ stat.stderr σ)
  ∧ NoDup (stat.stderr σ).

(** The group of row [i]; [None] without a [group] column or past the
    last row. *)
Definition group_at (df : DataFrame) (i : nat) : option value :=
  s ← assoc "group" (columns df); s_values s !! i.

(** Two rows lie in the same group. *)
Definition same_group (df : DataFrame) (i j : nat) : Prop :=
  group_at df i = group_at df j.

(** What [train] and [reset] leave in [range_c]: [None] or a pair of
    numbers. *)
Definition range_c_ok (self : scale_xy.scale_position_discrete) : bool :=
  match scale_xy.range_c self with
  | None => true
  | Some [VNum _; VNum _] => true
  | _ => false
  end.

(** [c] is the position of [v] in [lims], counted from 1: the first place
    where [lims] holds [v]. *)
Definition position_in (lims : list value) (v : value) (c : Z) : Prop :=
  ∃ k : nat, c = Z.of_nat (S k) ∧ lims !! k = Some v
             ∧ ∀ k', k' < k → lims !! k' ≠ Some v.

(** The required aesthetics of a stat found neither among the columns of
    the data nor among the names of its parameters. *)
Definition missing_aesthetics {Scales} (st : stat.stat Scales)
    (data : DataFrame) : gset string :=
  filter (λ a, (a ∉ (columns data).*1) ∧ stat.params st !! a = None)
    (stat.REQUIRED_AES st).

(** The messages of a list in the order of their first occurrence. *)
Fixpoint first_occurrences (l : list string) : list string :=
  match l with
  | [] => []
  | m :: l => m :: filter (λ m', m' ≠ m) (first_occurrences l)
  end.

(** The effective mapping of a layer: its own mapping, merged over the
    mapping of the plot when [inherit_aes] is set. *)
Definition effective_mapping {Scales} (self : layer.layer Scales)
    (plot : layer.ggplot Scales) : aes.aes :=
  if layer.inherit_aes self
  then utils.defaults (layer.mapping self) (layer.plot_mapping plot)
  else layer.mapping self.

(** The aesthetics [compute_aesthetics] works with: the mapping of the
    layer, and the group of the layer when it has one. *)
Definition layer_aesthetics {Scales} (self : layer.layer Scales)
    (plot : layer.ggplot Scales) : aes.aes :=
  let aesthetics := layer.layer_mapping self (layer.plot_mapping plot) in
  match layer.group self with
  | Some g => assoc_set "group" g aesthetics
  | None => aesthetics
  end.

(** What the first loop of [compute_aesthetics] lets through on a table
    of [n] rows: a string, or a list of one element when [n] is 1. *)
Definition accepted (n : nat) (v : aes.aes_value) : Prop :=
  match v with
  | aes.AesStr _ => True
  | aes.AesList l => length l = 1 ∧ n = 1
  | aes.AesScalar _ => False
  end.

(** The column an aesthetic refers to. *)
Definition column_of (v : aes.aes_value) : option string :=
  match v with
  | aes.AesStr c => Some c
  | _ => None
  end.

(** The aesthetics that refer to a column, each with its column. *)
Definition pairs_of (items : aes.aes) : list (string * string) :=
  omap (λ kv, col ← column_of kv.2; Some (kv.1, col)) items.

(** ** Sample inputs *)

Module sample.
Import aes.

(** A stat that hands its input back. *)
Definition stat_identity {Scales} (required : gset string)
  : stat.stat Scales :=
  stat.mkStat "stat_identity" required [] ∅ false (λ d _, Ok d).

(** A layer with the given mapping, nothing inherited, no manual
    aesthetic and no group. *)
Definition layer_of {Scales} (required : gset string) (mapping : aes)
  : layer.layer Scales :=
  layer.mkLayer (layer.mkGeom ∅) (stat_identity required)
    None mapping false None.

(** Three rows, a numeric column, a column of strings, one panel. *)
Definition three_rows : DataFrame :=
  mkDataFrame 3
    [("a", mkSeries float64 [of_Z 1; of_Z 2; of_Z 3]);
     ("c", mkSeries object_ [VStr "red"; VStr "blue"; VStr "red"]);
     ("PANEL", mkSeries int64 [of_Z 1; of_Z 1; of_Z 1])].

(** No row, one column. *)
Definition no_rows : DataFrame :=
  mkDataFrame 0 [("a", mkSeries float64 [])].

(** A scale as created: nothing configured, nothing trained. *)
Definition fresh_scale : scale_xy.scale_position_discrete :=
  scale_xy.mkScale None None None.

(** Collaborators for the sample runs: no scale is added, and the unbound
    name [strip_dots] raises. *)
Definition no_new_scales : unit → DataFrame → aes → unit := λ s _ _, s.
Definition unbound_strip_dots : aes_value → result string :=
  λ _, Raise (NameError "strip_dots").

(** pandas' [update] when it has nothing to write. *)
Definition no_update : DataFrame → list (string * list value) → DataFrame :=
  λ df _, df.

(** A layer whose stat maps [y] to a computed aesthetic by default. *)
Definition layer_of_count {Scales} (mapping : aes) : layer.layer Scales :=
  layer.mkLayer (layer.mkGeom ∅)
    (stat.mkStat "stat_count" ∅ [("y", AesStr "..count..")] ∅ false
       (λ d _, Ok d))
    None mapping false None.

(** Two rows of numbers. *)
Definition numbers_only : DataFrame :=
  mkDataFrame 2 [("a", mkSeries float64 [of_Z 1; of_Z 2])].

(** A scale trained with the numbers from 1/2 to 7/2. *)
Definition scale_of_numbers : scale_xy.scale_position_discrete :=
  scale_xy.mkScale None None
    (Some [VNum (Q2Qc (1 # 2)); VNum (Q2Qc (7 # 2))]).

(** A path through three points. *)
Definition path_pinfo : gmap string geom.pyobj :=
  list_to_map
    [("x", geom.PList [of_Z 1; of_Z 2; of_Z 3]);
     ("y", geom.PList [of_Z 4; of_Z 5; of_Z 6]);
     ("color", geom.PVal (VStr "black"));
     ("alpha", geom.PVal (of_Z 1));
     ("linewidth", geom.PVal (of_Z 1));
     ("linestyle", geom.PVal (VStr "solid"))].

(** A horizontal line at 5, its ends left to the scale. *)
Definition hline_pinfo : gmap string geom.pyobj :=
  list_to_map
    [("yintercept", geom.PVal (of_Z 5));
     ("y", geom.PNone);
     ("xmin", geom.PNone);
     ("xmax", geom.PNone);
     ("color", geom.PVal (VStr "black"));
     ("alpha", geom.PVal (of_Z 1));
     ("linewidth", geom.PVal (of_Z 1));
     ("linestyle", geom.PVal (VStr "solid"))].

(** Scales given by their coordinate range, here from 0 to 10 for [x],
    and a colour conversion that keeps the colour. *)
Definition x_scales : gmap string geom.pyobj :=
  {["x" := geom.PList [of_Z 0; of_Z 10]]}.
Definition range_of : geom.pyobj → result geom.pyobj := Ok.
Definition keep_color : geom.pyobj → geom.pyobj → result geom.pyobj :=
  λ c _, Ok c.

End sample.

(** * Properties *)

(** ** Warnings of the stats *)

Section warnings.
Context {Scales : Type}.
Implicit Types (σ : stat.process) (self : stat.stat Scales).
Implicit Types (calls : list (stat.stat Scales * string)).

Lemma mirrored_start : mirrored stat.process_start.
Proof.
  split; [intros m; cbn; set_solver | constructor].
Qed.

Lemma print_warning_mirrored self message σ :
  mirrored σ → mirrored (stat._print_warning self message σ).
Proof.
  intros [Hset Hnd]. unfold stat._print_warning.
  destruct (decide (message ∈ stat._warnings_printed σ)) as [Hin|Hnin].
  - by split.
  - split; cbn.
    + intros m. rewrite elem_of_union, elem_of_singleton, elem_of_app,
        list_elem_of_singleton, Hset. tauto.
    + apply NoDup_app. split_and!; [done | | apply NoDup_singleton].
      intros m Hm ->%list_elem_of_singleton. apply Hnin, Hset, Hm.
Qed.

Lemma print_warnings_mirrored calls σ :
  mirrored σ → mirrored (print_warnings calls σ).
Proof.
  revert σ. induction calls as [|[self m] calls IH]; intros σ Hσ; [done|].
  cbn. apply IH, print_warning_mirrored, Hσ.
Qed.

Lemma print_warnings_snoc calls self message σ :
  print_warnings (calls ++ [(self, message)]) σ
  = stat._print_warning self message (print_warnings calls σ).
Proof. unfold print_warnings. by rewrite foldl_app. Qed.

Lemma print_warning_printed self message σ m :
  m ∈ stat._warnings_printed (stat._print_warning self message σ)
  ↔ m = message ∨ m ∈ stat._warnings_printed σ.
Proof.
  unfold stat._print_warning.
  destruct (decide (message ∈ stat._warnings_printed σ)) as [Hin|Hnin]; cbn.
  - split; [tauto | by intros [->|?]].
  - rewrite elem_of_union, elem_of_singleton. tauto.
Qed.

(** After a run from the start, the printed messages are those passed. *)
Lemma print_warnings_printed calls m :
  m ∈ stat._warnings_printed (print_warnings calls stat.process_start)
  ↔ m ∈ calls.*2.
Proof.
  induction calls as [|[self m'] calls IH] using rev_ind.
  - cbn. set_solver.
  - rewrite print_warnings_snoc, print_warning_printed, IH, fmap_app.
    cbn. rewrite elem_of_app, list_elem_of_singleton. tauto.
Qed.

Lemma NoDup_filter_eq_length (l : list string) (x : string) :
  NoDup l → length (filter (λ m, m = x) l) ≤ 1.
Proof.
  induction 1 as [|y l Hy Hnd IH]; [cbn; lia|].
  rewrite filter_cons. destruct (decide (y = x)) as [->|]; [|done].
  cbn. destruct (filter (λ m, m = x) l) as [|z k] eqn:Hf; [cbn; lia|].
  assert (z ∈ filter (λ m, m = x) l) as [-> ?]%list_elem_of_filter
    by (rewrite Hf; left).
  done.
Qed.

(** C9: whatever calls of [_print_warning] were made since the process
    started, on whatever stat instances, a message stands at most once on
    the standard error; one more call writes the message when no earlier
    call had it, and writes nothing otherwise. *)
Theorem print_warning_once
    (calls : list (stat.stat Scales * string)) self message :
  let σ := print_warnings calls stat.process_start in
  length (filter (λ m, m = message) (stat.stderr σ)) ≤ 1
  ∧ stat.stderr (stat._print_warning self message σ)
    = stat.stderr σ ++ (if decide (message ∈ calls.*2) then [] else [message]).
Proof.
  intros σ. split.
  - apply NoDup_filter_eq_length.
    apply (print_warnings_mirrored calls), mirrored_start.
  - unfold stat._print_warning.
    pose proof (print_warnings_printed calls message) as Hp. fold σ in Hp.
    destruct (decide (message ∈ stat._warnings_printed σ)) as [Hin|Hnin];
      destruct (decide (message ∈ calls.*2)) as [Hc|Hc]; cbn;
      try tauto; by rewrite ?app_nil_r.
Qed.

End warnings.

(** ** The layer: aesthetics and statistics *)

Section layer_facts.
Import aes utils.
Context {Scales : Type}.
Variable scales_add_defaults : Scales → DataFrame → aes → Scales.
Variable update : DataFrame → list (string * list value) → DataFrame.
Variable strip_dots : aes_value → result string.
Implicit Types (self : layer.layer Scales) (plot : layer.ggplot Scales).
Implicit Types (data : DataFrame) (scales : Scales).

(** The test of the loop lets a constant through only when the data has
    one row and the constant one element. *)
Lemma sort_aesthetics_constant n ae l items colnames aenames settings :
  layer.sort_aesthetics n ((ae, AesList l) :: items) colnames aenames settings
  = if bool_decide (length l = 1 ∧ n = 1)
    then layer.sort_aesthetics n items colnames aenames
           (assoc_set ae l settings)
    else Raise (GgplotError AesLength).
Proof.
  cbn. repeat case_bool_decide; cbn; try done; lia.
Qed.

(** C1: on a table of three rows [compute_aesthetics] raises the length
    error for a constant of length one, and for a constant of length
    three, the two lengths the message of the error allows. *)
Theorem compute_aesthetics_rejects_allowed_lengths scales :
  layer.compute_aesthetics scales_add_defaults update
    (sample.layer_of ∅ [("x", AesStr "a"); ("colour", AesList [VStr "red"])])
    sample.three_rows (layer.mkGgplot [] scales)
  = Raise (GgplotError AesLength)
  ∧ layer.compute_aesthetics scales_add_defaults update
      (sample.layer_of ∅
         [("x", AesStr "a");
          ("colour", AesList [VStr "red"; VStr "blue"; VStr "red"])])
      sample.three_rows (layer.mkGgplot [] scales)
    = Raise (GgplotError AesLength).
Proof. split; vm_compute; reflexivity. Qed.

(** C3: on a table without rows [calc_statistic] makes no call, neither
    the check of the required aesthetics nor the transform of the stat,
    and returns an empty table. *)
Theorem calc_statistic_empty self data scales :
  nrows data = 0 →
  layer.calc_statistic self data scales = ([], Ok empty_frame).
Proof.
  intros Hn. unfold layer.calc_statistic. by rewrite bool_decide_eq_true_2.
Qed.

Lemma missing_aesthetics_difference (st : stat.stat Scales) data :
  stat.REQUIRED_AES st
    ∖ list_to_set ((columns data).*1 ++ elements (dom (stat.params st)))
  = missing_aesthetics st data.
Proof.
  apply set_eq. intros a. unfold missing_aesthetics.
  rewrite elem_of_difference, elem_of_filter, elem_of_list_to_set,
    elem_of_app, elem_of_elements, elem_of_dom, eq_None_not_Some.
  tauto.
Qed.

(** C4: on a table with rows, [calc_statistic] checks the required
    aesthetics; when some are found neither among the columns nor among
    the parameters of the stat it raises the error that names the stat and
    those aesthetics, and the transform is not called; when none is
    missing it calls the transform on the data and returns what the
    transform returns. *)
Theorem calc_statistic_required self data scales :
  nrows data ≠ 0 →
  let st := layer.layer_stat self in
  let present := (columns data).*1 ++ elements (dom (stat.params st)) in
  layer.calc_statistic self data scales
  = if decide (missing_aesthetics st data = ∅)
    then ([layer.check_required present; layer.calculate_groups data],
          stat._calculate_groups st data scales)
    else ([layer.check_required present],
          Raise (GgplotError
                   (MissingAes (stat.__name__ st)
                      (missing_aesthetics st data)))).
Proof.
  intros Hn st present. unfold layer.calc_statistic.
  rewrite bool_decide_eq_false_2 by done.
  unfold check_required_aesthetics. fold st. fold present.
  unfold present. rewrite missing_aesthetics_difference.
  by destruct (decide (missing_aesthetics st data = ∅)).
Qed.

(** Without computed aesthetics the loop of [map_statistic] collects
    nothing. *)
Lemma map_statistic_no_computed self data plot :
  is_calculated_aes (layer.stat_aesthetics self plot) = [] →
  layer.map_statistic scales_add_defaults strip_dots self data plot
  = Ok (if bool_decide (nrows data = 0) then empty_frame else data,
        layer.plot_scales plot).
Proof.
  intros Hnone. unfold layer.map_statistic. rewrite Hnone.
  by case_bool_decide.
Qed.

(** The aesthetics [map_statistic] assembles are the effective mapping
    of the layer merged over the defaults of the stat. *)
Lemma stat_aesthetics_effective self plot :
  layer.stat_aesthetics self plot
  = defaults (effective_mapping self plot)
      (stat.DEFAULT_AES (layer.layer_stat self)).
Proof.
  unfold layer.stat_aesthetics, effective_mapping.
  by destruct (layer.inherit_aes self).
Qed.

(** C8, as amended: when the aesthetics [map_statistic] assembles, the
    mapping of the layer merged over the mapping of the plot when
    [inherit_aes] is set and then over the [DEFAULT_AES] of the stat, hold
    no computed aesthetic, [map_statistic] returns a table that has rows
    unchanged, and leaves the scales of the plot as they are. *)
Theorem map_statistic_identity self data plot :
  nrows data ≠ 0 →
  is_calculated_aes (layer.stat_aesthetics self plot) = [] →
  layer.map_statistic scales_add_defaults strip_dots self data plot
  = Ok (data, layer.plot_scales plot).
Proof.
  intros Hn Hnone. rewrite map_statistic_no_computed by done.
  by rewrite bool_decide_eq_false_2.
Qed.

End layer_facts.

(** ** Grouping *)

Section grouping.
Import utils.

Lemma of_Z_inj a b : of_Z a = of_Z b → a = b.
Proof.
  unfold of_Z. intros [= H].
  apply inject_Z_injective.
  rewrite <- (Qred_correct (inject_Z a)), <- (Qred_correct (inject_Z b)).
  by rewrite H.
Qed.

Lemma assoc_set_lookup {A} k (a : A) l : assoc k (assoc_set k a l) = Some a.
Proof.
  induction l as [|[k' a'] l IH]; cbn.
  - by rewrite decide_True.
  - destruct (decide (k = k')) as [->|Hne]; cbn.
    + by rewrite decide_True.
    + by rewrite decide_False.
Qed.

Lemma index_of_Some {A} `{EqDecision A} (x : A) l k :
  index_of x l = Some k →
  l !! k = Some x ∧ ∀ k', k' < k → l !! k' ≠ Some x.
Proof.
  revert k. induction l as [|y l IH]; intros k; cbn; [done|].
  destruct (decide (x = y)) as [->|Hne].
  - intros [= <-]. split; [done | lia].
  - destruct (index_of x l) as [n|]; [|done]. cbn. intros [= <-].
    destruct (IH n eq_refl) as [Hn Hfirst]. split; [done|].
    intros [|k'] Hk'; cbn; [congruence | apply Hfirst; lia].
Qed.

Lemma index_of_is_Some {A} `{EqDecision A} (x : A) l :
  x ∈ l → is_Some (index_of x l).
Proof.
  induction 1 as [y l|y z l Hin IH]; cbn.
  - rewrite decide_True by done. eauto.
  - destruct (decide (y = z)); [eauto|]. by apply fmap_is_Some.
Qed.

Lemma index_of_None {A} `{EqDecision A} (x : A) l :
  x ∉ l → index_of x l = None.
Proof.
  intros Hx. destruct (index_of x l) as [k|] eqn:Hk; [|done].
  apply index_of_Some in Hk as [Hk _]. destruct Hx.
  by eapply list_elem_of_lookup_2.
Qed.

Lemma index_of_inj {A} `{EqDecision A} (x y : A) l :
  x ∈ l → index_of x l = index_of y l → x = y.
Proof.
  intros [k Hk]%index_of_is_Some Heq.
  pose proof (index_of_Some _ _ _ Hk) as [Hx _].
  rewrite Heq in Hk. apply index_of_Some in Hk as [Hy _]. congruence.
Qed.

Lemma rows_length df : length (rows df) = nrows df.
Proof. unfold rows. by rewrite length_fmap, length_seq. Qed.

Lemma ninteraction_length df :
  length (s_values (ninteraction df)) = nrows df.
Proof. unfold ninteraction. cbn. by rewrite length_fmap, rows_length. Qed.

(** The enumeration gives two rows the same number exactly when they
    hold the same values. *)
Lemma ninteraction_same df i j ki kj :
  rows df !! i = Some ki → rows df !! j = Some kj →
  s_values (ninteraction df) !! i = s_values (ninteraction df) !! j
  ↔ ki = kj.
Proof.
  intros Hi Hj. unfold ninteraction. cbn.
  rewrite !list_lookup_fmap, Hi, Hj. cbn. split; [|by intros ->].
  intros H. apply (inj Some), of_Z_inj in H.
  assert (ki ∈ remove_dups (rows df)) as Hki.
  { apply elem_of_remove_dups. by eapply list_elem_of_lookup_2. }
  assert (kj ∈ remove_dups (rows df)) as Hkj.
  { apply elem_of_remove_dups. by eapply list_elem_of_lookup_2. }
  destruct (index_of_is_Some _ _ Hki) as [a Ha].
  destruct (index_of_is_Some _ _ Hkj) as [b Hb].
  apply (index_of_inj _ _ _ Hki). rewrite Ha, Hb in *. cbn in H.
  f_equal. lia.
Qed.

Lemma rows_to_frame col s : rows (to_frame col s) = (λ v, [v]) <$> s_values s.
Proof.
  unfold rows, to_frame. cbn. apply list_eq. intros i.
  rewrite !list_lookup_fmap.
  destruct (decide (i < length (s_values s))) as [Hlt|Hge].
  - rewrite lookup_seq_lt by done. cbn.
    destruct (lookup_lt_is_Some_2 _ _ Hlt) as [v Hv]. by rewrite Hv.
  - rewrite lookup_seq_ge by lia. cbn.
    by rewrite lookup_ge_None_2 by lia.
Qed.

(** Numbering the groups anew keeps the rows that were together
    together, and only them. *)
Lemma regroup_same g i j :
  s_values (ninteraction (to_frame "group" g)) !! i
  = s_values (ninteraction (to_frame "group" g)) !! j
  ↔ s_values g !! i = s_values g !! j.
Proof.
  set (ids := s_values (ninteraction (to_frame "group" g))).
  assert (length ids = length (s_values g)) as Hlen
    by apply ninteraction_length.
  destruct (s_values g !! i) as [vi|] eqn:Hi;
    destruct (s_values g !! j) as [vj|] eqn:Hj.
  - unfold ids. rewrite (ninteraction_same _ i j [vi] [vj]).
    + split; congruence.
    + by rewrite rows_to_frame, list_lookup_fmap, Hi.
    + by rewrite rows_to_frame, list_lookup_fmap, Hj.
  - apply lookup_ge_None in Hj. rewrite <- Hlen in Hj.
    apply lookup_lt_Some in Hi. rewrite <- Hlen in Hi.
    apply lookup_ge_None in Hj. apply lookup_lt_is_Some in Hi as [x Hx].
    rewrite Hx, Hj. split; congruence.
  - apply lookup_ge_None in Hi. rewrite <- Hlen in Hi.
    apply lookup_lt_Some in Hj. rewrite <- Hlen in Hj.
    apply lookup_ge_None in Hi. apply lookup_lt_is_Some in Hj as [x Hx].
    rewrite Hx, Hi. split; congruence.
  - apply lookup_ge_None in Hi, Hj. rewrite <- Hlen in Hi, Hj.
    apply lookup_ge_None in Hi, Hj. by rewrite Hi, Hj.
Qed.

Lemma group_at_setitem df s i :
  group_at (setitem df "group" s) i = s_values s !! i.
Proof. unfold group_at, setitem. cbn. by rewrite assoc_set_lookup. Qed.

Lemma nrows_setitem df col s : nrows df ≠ 0 → nrows (setitem df col s) = nrows df.
Proof.
  unfold setitem. cbn. destruct (columns df), (nrows df); done.
Qed.

(** On a table with rows [add_group] leaves a [group] column. *)
Lemma add_group_grouped df :
  nrows df ≠ 0 →
  nrows (layer.add_group df) ≠ 0
  ∧ is_Some (assoc "group" (columns (layer.add_group df))).
Proof.
  intros Hn. unfold layer.add_group.
  rewrite bool_decide_eq_false_2 by done.
  unfold has_column. case_bool_decide as Hg; cbn.
  - destruct Hg as [g Hg]. rewrite Hg. rewrite nrows_setitem by done.
    split; [done|]. cbn. rewrite assoc_set_lookup. eauto.
  - case_bool_decide.
    + rewrite nrows_setitem by done. split; [done|]. cbn.
      rewrite assoc_set_lookup. eauto.
    + cbn. split; [done|]. rewrite assoc_set_lookup. eauto.
Qed.

(** On a table with rows and a [group] column [add_group] numbers the
    groups anew. *)
Lemma add_group_regroup df g :
  nrows df ≠ 0 → assoc "group" (columns df) = Some g →
  layer.add_group df
  = setitem df "group" (ninteraction (to_frame "group" g)).
Proof.
  intros Hn Hg. unfold layer.add_group.
  rewrite bool_decide_eq_false_2 by done.
  unfold has_column. rewrite bool_decide_eq_true_2 by (rewrite Hg; eauto).
  cbn. by rewrite Hg.
Qed.

(** C5: [add_group] applied twice puts two rows in the same group exactly
    when [add_group] applied once does. *)
Theorem add_group_idempotent df i j :
  same_group (layer.add_group (layer.add_group df)) i j
  ↔ same_group (layer.add_group df) i j.
Proof.
  destruct (decide (nrows df = 0)) as [Hz|Hn].
  - assert (layer.add_group df = df) as Hid.
    { unfold layer.add_group. by rewrite bool_decide_eq_true_2. }
    by rewrite !Hid.
  - destruct (add_group_grouped df Hn) as [Hn1 [g Hg]].
    rewrite (add_group_regroup _ g Hn1 Hg). unfold same_group.
    rewrite !group_at_setitem, regroup_same.
    unfold group_at. by rewrite Hg.
Qed.

End grouping.

(** ** The discrete position scale *)

Section position_discrete.
Import utils scale_xy.
Implicit Types (self : scale_position_discrete) (series : Series).

(** C2: without configured limits, without trained levels and without a
    trained continuous range, the property [limits] raises nothing: it
    returns [None]. *)
Theorem limits_unresolved_returns_None self :
  truthy (_limits self) = false →
  truthy (range self) = false →
  truthy (range_c self) = false →
  limits self = Ok None.
Proof.
  intros Hl Hr Hc. unfold limits. by rewrite Hl, Hr, Hc.
Qed.

Lemma discrete_not_continuous (d : dtype) :
  d ∈ discrete_dtypes → d ∉ continuous_dtypes.
Proof.
  unfold discrete_dtypes, continuous_dtypes.
  rewrite !elem_of_cons, !elem_of_nil.
  intros [->|[->|[->|[]]]] [?|[?|[]]]; discriminate.
Qed.

Lemma extend_levels_elem old new v :
  v ∈ extend_levels old new ↔ v ∈ old ∨ v ∈ new.
Proof.
  unfold extend_levels. revert old.
  induction new as [|x new IH]; intros old; cbn.
  - rewrite elem_of_nil. tauto.
  - rewrite IH, elem_of_cons. destruct (decide (x ∈ old)) as [Hx|Hx].
    + split; [tauto|]. intros [?|[->|?]]; tauto.
    + rewrite elem_of_app, list_elem_of_singleton. tauto.
Qed.

(** Training with numbers goes through [train_continuous] on a scale
    whose [range] holds the continuous range, and lands in [range_c]. *)
Lemma train_continuous_routed self series :
  s_dtype series ∈ continuous_dtypes →
  range_c_ok self = true →
  ∃ rc,
    train_continuous (set_range (range_c self) self) series
    = Ok (set_range rc (set_range (range_c self) self))
    ∧ train self series = Ok (set_range_c rc self)
    ∧ range_c_ok (set_range_c rc self) = true.
Proof.
  intros Hd Hok. unfold train. rewrite bool_decide_eq_true_2 by done.
  unfold train_continuous.
  destruct (omap _ (s_values series)) as [|x xs].
  - exists (range_c self). by destruct self.
  - destruct self as [lim r rc]. unfold range_c_ok in Hok. cbn in *.
    destruct rc as [[|[a| | |] [|[b| | |] [|]]]|]; try done; cbn.
    + by eexists.
    + by eexists.
Qed.

(** Training with levels extends [range] and nothing else. *)
Lemma train_discrete_routed self series :
  s_dtype series ∈ discrete_dtypes →
  ∃ r,
    train self series = Ok (set_range (Some r) self)
    ∧ (∀ v, v ∈ default [] (range self) → v ∈ r)
    ∧ (∀ v, v ∈ s_values series → v ∈ r).
Proof.
  intros Hd%discrete_not_continuous. unfold train.
  rewrite bool_decide_eq_false_2 by done. unfold scale_discrete_train.
  eexists. split; [done|].
  split; intros v Hv; apply extend_levels_elem; tauto.
Qed.

(** C6: a series of a continuous dtype trains [range_c] and leaves
    [range] and [_limits] as they were; a series of a discrete dtype
    extends the levels in [range] and leaves [range_c] and [_limits] as
    they were. *)
Theorem train_routes_by_dtype self series :
  (s_dtype series ∈ continuous_dtypes → range_c_ok self = true →
   ∃ rc, train self series = Ok (mkScale (_limits self) (range self) rc)
         ∧ train_continuous (mkScale (_limits self) (range_c self)
                               (range_c self)) series
           = Ok (mkScale (_limits self) rc (range_c self)))
  ∧ (s_dtype series ∈ discrete_dtypes →
     ∃ r, train self series = Ok (mkScale (_limits self) (Some r)
                                    (range_c self))
          ∧ (∀ v, v ∈ default [] (range self) → v ∈ r)
          ∧ (∀ v, v ∈ s_values series → v ∈ r)).
Proof.
  split.
  - intros Hd Hok.
    destruct (train_continuous_routed self series Hd Hok)
      as (rc & Htc & Ht & _).
    exists rc. split; [exact Ht | exact Htc].
  - intros Hd. exact (train_discrete_routed self series Hd).
Qed.

Lemma take_one_raises (seq : list Z) i e :
  np.take_one seq i = Raise e → e = IndexError.
Proof.
  unfold np.take_one. destruct i as [i|]; [|congruence].
  cbn. case_bool_decide; [|congruence].
  destruct (seq !! _); cbn; congruence.
Qed.

(** An index that is missing makes the whole lookup fail. *)
Lemma take_missing (seq : list Z) idx :
  None ∈ idx → np.take seq idx = Raise IndexError.
Proof.
  unfold np.take. induction idx as [|i idx IH]; [by intros ?%elem_of_nil|].
  intros [<-|Hin]%elem_of_cons; [done|]. cbn.
  destruct (np.take_one seq i) as [c|e] eqn:Hc; cbn.
  - by rewrite (IH Hin).
  - by rewrite (take_one_raises _ _ _ Hc).
Qed.

(** The code of a value the limits hold: its first position, from 1. *)
Lemma take_one_match (l : list value) v :
  v ∈ l →
  ∃ c, np.take_one (np.arange 1 (Z.of_nat (length l) + 1))
         (Z.of_nat <$> index_of v l) = Ok c
       ∧ position_in l v c ∧ (1 ≤ c ≤ Z.of_nat (length l))%Z.
Proof.
  intros [k Hk]%index_of_is_Some. rewrite Hk. cbn.
  destruct (index_of_Some _ _ _ Hk) as [Hlk Hfirst].
  pose proof (lookup_lt_Some _ _ _ Hlk) as Hlt.
  unfold np.take_one, np.arange. rewrite length_seqZ.
  rewrite (bool_decide_eq_false_2 (Z.of_nat k < 0)%Z) by lia.
  rewrite bool_decide_eq_true_2 by lia.
  rewrite Nat2Z.id, lookup_seqZ_lt by lia. cbn.
  exists (1 + Z.of_nat k)%Z. split; [done|]. split; [|lia].
  exists k. split; [lia | done].
Qed.

Lemma take_match_all (l vals : list value) :
  Forall (λ v, v ∈ l) vals →
  ∃ codes,
    np.take (np.arange 1 (Z.of_nat (length l) + 1)) (match_ vals l)
    = Ok codes
    ∧ Forall2 (position_in l) vals codes
    ∧ Forall (λ c, 1 ≤ c ≤ Z.of_nat (length l))%Z codes.
Proof.
  unfold np.take, match_. induction 1 as [|v vals Hv _ (codes & Hc & H2 & Hb)].
  - exists []. by repeat constructor.
  - destruct (take_one_match l v Hv) as (c & Hone & Hpos & Hbound).
    exists (c :: codes). cbn. rewrite Hone. cbn. rewrite Hc. cbn.
    split; [done|]. split; by constructor.
Qed.

Lemma take_match_unseen (l vals : list value) :
  ¬ Forall (λ v, v ∈ l) vals →
  np.take (np.arange 1 (Z.of_nat (length l) + 1)) (match_ vals l)
  = Raise IndexError.
Proof.
  intros (v & Hv & Hnot)%not_Forall_Exists%Exists_exists; [|apply _].
  apply take_missing. unfold match_. apply list_elem_of_fmap.
  exists v. split; [|done]. by rewrite (index_of_None _ _ Hnot).
Qed.

(** C7: for a series of a discrete dtype and the limits [map] works with,
    when the limits hold every value of the series the result holds for
    each value its position in the limits counted from 1, a code between 1
    and their length; when some value is not among the limits the call
    raises an [IndexError] and returns no code. *)
Theorem map_discrete_codes self series limits_ l :
  effective_limits self limits_ = Ok (Some l) →
  s_dtype series ∈ discrete_dtypes →
  (Forall (λ v, v ∈ l) (s_values series) →
   ∃ codes,
     map self series limits_ = Ok (mkSeries int64 (of_Z <$> codes))
     ∧ Forall2 (position_in l) (s_values series) codes
     ∧ Forall (λ c, 1 ≤ c ≤ Z.of_nat (length l))%Z codes)
  ∧ (¬ Forall (λ v, v ∈ l) (s_values series) →
     map self series limits_ = Raise IndexError).
Proof.
  intros Heff Hd. unfold map. rewrite Heff. cbn.
  rewrite bool_decide_eq_true_2 by done. cbn. split.
  - intros Hall. destruct (take_match_all l _ Hall) as (codes & Hc & H2 & Hb).
    exists codes. by rewrite Hc.
  - intros Hnot. by rewrite (take_match_unseen l _ Hnot).
Qed.



(** [train] and [reset] keep [range_c] a pair of numbers, or nothing. *)
Lemma train_range_c_ok self series self' :
  range_c_ok self = true → train self series = Ok self' →
  range_c_ok self' = true.
Proof.
  intros Hok. unfold train. case_bool_decide as Hd.
  - destruct (train_continuous_routed self series Hd Hok)
      as (rc & _ & Ht & Hok').
    unfold train in Ht. rewrite bool_decide_eq_true_2 in Ht by done.
    rewrite Ht. by intros [= <-].
  - unfold scale_discrete_train. by intros [= <-].
Qed.

Lemma reset_range_c_ok self : range_c_ok (reset self) = true.
Proof. done. Qed.

End position_discrete.

(** ** The properties at the sample inputs *)

Section instances.
Import aes utils.

(** The groups of the sample: the rows of the same colour go together. *)
Example add_group_three_rows :
  same_group (layer.add_group sample.three_rows) 0 2
  ∧ ¬ same_group (layer.add_group sample.three_rows) 0 1.
Proof. split; [by vm_compute | vm_compute; discriminate]. Qed.

Lemma calc_statistic_empty_witness :
  nrows sample.no_rows = 0
  ∧ layer.calc_statistic (sample.layer_of (Scales := unit) {["x"]} [])
      sample.no_rows ()
    = ([], Ok empty_frame).
Proof.
  split; [reflexivity|]. apply calc_statistic_empty. reflexivity.
Defined.

Lemma calc_statistic_required_witness :
  nrows sample.three_rows ≠ 0
  ∧ layer.calc_statistic (sample.layer_of (Scales := unit) {["weight"]} [])
      sample.three_rows ()
    = ([layer.check_required ["a"; "c"; "PANEL"]],
       Raise (GgplotError (MissingAes "stat_identity" {["weight"]}))).
Proof.
  split; [done|].
  etrans; [by apply calc_statistic_required|].
  vm_compute. reflexivity.
Defined.

(** C8, as stated, fails twice, each time with an effective mapping of
    the layer that holds no computed aesthetic: on a table without rows
    that has a column, what comes back is a new table without columns;
    on a table with rows, a computed aesthetic among the defaults of the
    stat is resolved all the same, here up to the call of [strip_dots]. *)
Lemma map_statistic_identity_fails :
  (is_calculated_aes
     (effective_mapping
        (sample.layer_of (Scales := unit) ∅ [("x", AesStr "a")])
        (layer.mkGgplot [] ())) = []
   ∧ layer.map_statistic sample.no_new_scales sample.unbound_strip_dots
       (sample.layer_of ∅ [("x", AesStr "a")]) sample.no_rows
       (layer.mkGgplot [] ())
     ≠ Ok (sample.no_rows, ()))
  ∧ (is_calculated_aes
       (effective_mapping
          (sample.layer_of_count (Scales := unit) [("x", AesStr "a")])
          (layer.mkGgplot [] ())) = []
     ∧ nrows sample.three_rows ≠ 0
     ∧ layer.map_statistic sample.no_new_scales sample.unbound_strip_dots
         (sample.layer_of_count [("x", AesStr "a")]) sample.three_rows
         (layer.mkGgplot [] ())
       ≠ Ok (sample.three_rows, ())).
Proof.
  split_and!; [reflexivity | | reflexivity | done |];
    vm_compute; discriminate.
Qed.

Lemma map_statistic_identity_witness :
  nrows sample.three_rows ≠ 0
  ∧ is_calculated_aes
      (layer.stat_aesthetics
         (sample.layer_of (Scales := unit) ∅ [("x", AesStr "a")])
         (layer.mkGgplot [] ())) = []
  ∧ layer.map_statistic sample.no_new_scales sample.unbound_strip_dots
      (sample.layer_of ∅ [("x", AesStr "a")]) sample.three_rows
      (layer.mkGgplot [] ())
    = Ok (sample.three_rows, ()).
Proof.
  split; [done|]. split; [reflexivity|].
  apply map_statistic_identity; [done | reflexivity].
Defined.

Lemma limits_unresolved_returns_None_witness :
  scale_xy.limits sample.fresh_scale = Ok None.
Proof.
  apply limits_unresolved_returns_None; reflexivity.
Defined.

Lemma train_routes_by_dtype_witness :
  (∃ rc,
     scale_xy.train sample.fresh_scale
       (mkSeries float64 [VNum (Q2Qc (1 # 2)); VNA; VNum (Q2Qc (7 # 2))])
     = Ok (scale_xy.mkScale None None rc))
  ∧ (∃ r,
       scale_xy.train sample.fresh_scale
         (mkSeries object_ [VStr "b"; VStr "a"; VStr "b"])
       = Ok (scale_xy.mkScale None (Some r) None)).
Proof.
  split.
  - destruct (proj1 (train_routes_by_dtype sample.fresh_scale
                       (mkSeries float64
                          [VNum (Q2Qc (1 # 2)); VNA; VNum (Q2Qc (7 # 2))])))
      as (rc & Ht & _); [by repeat constructor | reflexivity |].
    exists rc. exact Ht.
  - destruct (proj2 (train_routes_by_dtype sample.fresh_scale
                       (mkSeries object_ [VStr "b"; VStr "a"; VStr "b"])))
      as (r & Ht & _); [by repeat constructor |].
    exists r. exact Ht.
Defined.

Lemma map_discrete_codes_witness :
  ∃ codes,
    scale_xy.map sample.fresh_scale (mkSeries object_ [VStr "b"; VStr "a"])
      (Some [VStr "a"; VStr "b"])
    = Ok (mkSeries int64 (of_Z <$> codes))
    ∧ Forall2 (position_in [VStr "a"; VStr "b"]) [VStr "b"; VStr "a"] codes
    ∧ Forall (λ c, 1 ≤ c ≤ 2)%Z codes.
Proof.
  apply (map_discrete_codes sample.fresh_scale
           (mkSeries object_ [VStr "b"; VStr "a"])
           (Some [VStr "a"; VStr "b"]) [VStr "a"; VStr "b"]).
  - reflexivity.
  - by repeat constructor.
  - by repeat constructor.
Defined.


(** The codes of the sample, and what a value outside the limits does. *)
Example map_discrete_sample :
  scale_xy.map sample.fresh_scale (mkSeries object_ [VStr "b"; VStr "a"])
    (Some [VStr "a"; VStr "b"])
  = Ok (mkSeries int64 [of_Z 2; of_Z 1])
  ∧ scale_xy.map sample.fresh_scale (mkSeries object_ [VStr "b"; VStr "z"])
      (Some [VStr "a"; VStr "b"])
    = Raise IndexError.
Proof. split; vm_compute; reflexivity. Qed.

End instances.

(** * Further properties of the code *)

#[local] Set Warnings "-clear-no-such-hyp".

(** ** Construction of a stat *)

Section stat_object_facts.
Import stat_object.
Implicit Types (DEFAULT_PARAMS kwargs : gmap string value) (k : string).

(** The step of the loop of [_find_stat_params]. *)
Lemma find_stat_params_loop DEFAULT_PARAMS kwargs (ks : list string) k :
  let '(d, rest) :=
    foldl (λ '((d, kwargs) : gmap string value * gmap string value) k,
             if decide (is_Some (DEFAULT_PARAMS !! k)) then
               match kwargs !! k with
               | Some v => (<[k := v]> d, delete k kwargs)
               | None => (d, kwargs)
               end
             else (d, kwargs))
          (∅, kwargs) ks in
  d !! k = (if decide (k ∈ ks ∧ is_Some (DEFAULT_PARAMS !! k))
            then kwargs !! k else None)
  ∧ rest !! k = (if decide (k ∈ ks ∧ is_Some (DEFAULT_PARAMS !! k))
                 then None else kwargs !! k).
Proof.
  induction ks as [|x ks IH] using rev_ind.
  - cbn. rewrite lookup_empty.
    rewrite !decide_False by (intros [?%elem_of_nil _]; done). done.
  - rewrite foldl_app. cbn.
    destruct (foldl _ _ ks) as [d rest]. destruct IH as [Hd Hrest].
    assert (∀ y, y ∈ ks ++ [x] ↔ y ∈ ks ∨ y = x) as Hin.
    { intros y. by rewrite elem_of_app, list_elem_of_singleton. }
    destruct (decide (is_Some (DEFAULT_PARAMS !! x))) as [Hx|Hx].
    + destruct (rest !! x) as [v|] eqn:Hrx.
      * destruct (decide (k = x)) as [->|Hne].
        -- rewrite lookup_insert_eq, lookup_delete_eq.
           rewrite Hrx in Hrest.
           destruct (decide (x ∈ ks ∧ _)); [done|].
           rewrite !decide_True by (rewrite Hin; auto). done.
        -- rewrite lookup_insert_ne, lookup_delete_ne by done.
           rewrite Hd, Hrest.
           split; apply decide_ext; rewrite Hin; naive_solver.
      * destruct (decide (k = x)) as [->|Hne].
        -- rewrite Hrx in Hrest. rewrite Hd.
           destruct (decide (x ∈ ks ∧ _)) as [Hc|Hc].
           ++ rewrite !decide_True by (rewrite Hin; auto). done.
           ++ rewrite !decide_True by (rewrite Hin; auto). done.
        -- rewrite Hd, Hrest.
           split; apply decide_ext; rewrite Hin; naive_solver.
    + rewrite Hd, Hrest.
      split; apply decide_ext; rewrite Hin; naive_solver.
Qed.

(** What the loop leaves once it has gone through every keyword. *)
Lemma find_stat_params_lookup DEFAULT_PARAMS kwargs k :
  (_find_stat_params DEFAULT_PARAMS kwargs).1 !! k
  = (if decide (is_Some (DEFAULT_PARAMS !! k)) then kwargs !! k else None)
  ∧ (_find_stat_params DEFAULT_PARAMS kwargs).2 !! k
    = (if decide (is_Some (DEFAULT_PARAMS !! k)) then None else kwargs !! k).
Proof.
  unfold _find_stat_params.
  pose proof (find_stat_params_loop DEFAULT_PARAMS kwargs
                (elements (dom kwargs)) k) as H.
  destruct (foldl _ _ _) as [d rest]. destruct H as [Hd Hr]. cbn.
  rewrite Hd, Hr.
  assert (k ∈ elements (dom kwargs) ↔ is_Some (kwargs !! k)) as Hdom
    by (by rewrite elem_of_elements, elem_of_dom).
  destruct (decide (is_Some (DEFAULT_PARAMS !! k))) as [Hs|Hs].
  - destruct (kwargs !! k) as [v|] eqn:Hk.
    + by rewrite !decide_True by (rewrite Hdom; eauto).
    + by destruct (decide _).
  - by rewrite !decide_False by tauto.
Qed.

(** X1: [_find_stat_params] splits the keywords in two: those that name a
    default parameter, returned first, and the others, left in
    [kwargs]. *)
Theorem find_stat_params_partition DEFAULT_PARAMS kwargs :
  (_find_stat_params DEFAULT_PARAMS kwargs).1
  = filter (λ kv, is_Some (DEFAULT_PARAMS !! kv.1)) kwargs
  ∧ (_find_stat_params DEFAULT_PARAMS kwargs).2
    = filter (λ kv, DEFAULT_PARAMS !! kv.1 = None) kwargs.
Proof.
  split; apply map_eq; intros k; rewrite map_lookup_filter;
    destruct (find_stat_params_lookup DEFAULT_PARAMS kwargs k) as [Hd Hrest].
  - rewrite Hd. destruct (kwargs !! k) as [v|] eqn:Hk; cbn.
    + destruct (decide (is_Some (DEFAULT_PARAMS !! k))) as [Hs|Hs].
      * by rewrite option_guard_True.
      * by rewrite option_guard_False.
    + by destruct (decide _).
  - rewrite Hrest. destruct (kwargs !! k) as [v|] eqn:Hk; cbn.
    + destruct (decide (is_Some (DEFAULT_PARAMS !! k))) as [Hs|Hs].
      * rewrite option_guard_False; [done|].
        destruct Hs as [? Hs]. cbn. congruence.
      * rewrite option_guard_True; [done|].
        cbn. by apply eq_None_not_Some.
    + by destruct (decide _).
Qed.

(** X2: after [__init__] the parameters of a stat are those of
    [DEFAULT_PARAMS], each with the value of the keyword of that name
    when one was passed and with its default otherwise; the keywords
    that name no parameter are kept in [_cache], the others are not. *)
Theorem init_params DEFAULT_PARAMS args kwargs k :
  params (__init__ DEFAULT_PARAMS args kwargs) !! k
  = (dv ← DEFAULT_PARAMS !! k; Some (default dv (kwargs !! k)))
  ∧ _cache_kwargs (__init__ DEFAULT_PARAMS args kwargs) !! k
    = (if decide (is_Some (DEFAULT_PARAMS !! k)) then None
       else kwargs !! k)
  ∧ _cache_args (__init__ DEFAULT_PARAMS args kwargs) = args.
Proof.
  unfold __init__.
  destruct (find_stat_params_lookup DEFAULT_PARAMS kwargs k) as [Hd Hrest].
  destruct (_find_stat_params DEFAULT_PARAMS kwargs) as [d rest].
  cbn in *. split_and!; [|done|done].
  rewrite lookup_union, Hd.
  destruct (DEFAULT_PARAMS !! k) as [dv|] eqn:HD;
    destruct (kwargs !! k) as [v|] eqn:Hk; cbn.
  - by rewrite decide_True by eauto.
  - by rewrite decide_True by eauto.
  - by rewrite decide_False by (by intros [? ?]).
  - by rewrite decide_False by (by intros [? ?]).
Qed.

(** X3: adding a stat to a plot always raises: whatever the parameters
    and the geoms, [__radd__] ends in an exception before a layer is
    appended to the plot. *)
Theorem radd_always_raises {Plot Geom : Type}
    (geoms : string → result (list value → gmap string value → result Geom))
    (self : instance) (gg : Plot) :
  ∃ e, __radd__ Plot Geom geoms self gg = Raise e.
Proof.
  unfold __radd__.
  destruct (params self !! "geom") as [[q|s|b|]|]; cbn; try by eexists.
  destruct (geoms _) as [_g|e]; cbn; [|by eexists].
  destruct (_g _ _); cbn; [|by eexists].
  destruct (params self !! "position"); by eexists.
Qed.

End stat_object_facts.

(** ** Warnings and required aesthetics of a stat *)

Section stat_facts.
Context {Scales : Type}.
Implicit Types (σ : stat.process) (self : stat.stat Scales).
Implicit Types (calls : list (stat.stat Scales * string)).

Lemma first_occurrences_elem (l : list string) m :
  m ∈ first_occurrences l ↔ m ∈ l.
Proof.
  induction l as [|x l IH]; cbn; [done|].
  rewrite !elem_of_cons, list_elem_of_filter, IH.
  destruct (decide (m = x)); tauto.
Qed.

(** From a state whose set mirrors its standard error, a run appends the
    first occurrences of the messages not yet printed. *)
Lemma print_warnings_stderr calls σ :
  mirrored σ →
  stat.stderr (print_warnings calls σ)
  = stat.stderr σ
    ++ filter (λ m, m ∉ stat.stderr σ) (first_occurrences calls.*2).
Proof.
  revert σ. induction calls as [|[self m] calls IH]; intros σ Hσ.
  - cbn. by rewrite app_nil_r.
  - change (print_warnings ((self, m) :: calls) σ)
      with (print_warnings calls (stat._print_warning self m σ)).
    rewrite IH by by apply print_warning_mirrored.
    rewrite fmap_cons. cbn [snd first_occurrences].
    destruct Hσ as [Hset Hnd]. unfold stat._print_warning.
    destruct (decide (m ∈ stat._warnings_printed σ)) as [Hin|Hnin].
    + rewrite (filter_cons (λ m0, m0 ∉ stat.stderr σ)).
      destruct (decide (m ∉ stat.stderr σ)) as [Hc|_];
        [destruct Hc; by apply Hset|].
      f_equal. rewrite list_filter_filter. apply list_filter_iff.
      intros x. split; [|tauto]. intros Hx. split; [done|].
      intros ->. apply Hx, Hset, Hin.
    + cbn [stat.stderr]. rewrite (filter_cons (λ m0, m0 ∉ stat.stderr σ)).
      destruct (decide (m ∉ stat.stderr σ)) as [_|Hc];
        [|destruct Hc; by rewrite <- Hset].
      rewrite <- app_assoc. cbn. do 2 f_equal.
      rewrite list_filter_filter. apply list_filter_iff.
      intros x. rewrite elem_of_app, list_elem_of_singleton. tauto.
Qed.

(** X4: after any run from the start of the process the standard error
    holds the distinct messages passed to [_print_warning], each once, in
    the order of their first call. *)
Theorem print_warnings_first_occurrences calls :
  stat.stderr (print_warnings calls stat.process_start)
  = first_occurrences calls.*2.
Proof.
  rewrite print_warnings_stderr by apply mirrored_start. cbn.
  induction (first_occurrences calls.*2) as [|x l IH]; [done|].
  rewrite filter_cons_True by apply not_elem_of_nil. by rewrite IH.
Qed.

(** X5: [_verify_aesthetics] returns exactly when every required
    aesthetic is a column of the data, whatever the parameters of the
    stat; otherwise it raises the error that names the stat and the
    required aesthetics that are not columns. *)
Theorem verify_aesthetics_columns self data :
  (stat._verify_aesthetics self data = Ok ()
   ↔ ∀ a, a ∈ stat.REQUIRED_AES self → a ∈ (columns data).*1)
  ∧ (stat._verify_aesthetics self data ≠ Ok () →
     ∃ missing,
       stat._verify_aesthetics self data
       = Raise (GgplotError (MissingAes (stat.__name__ self) missing))
       ∧ ∀ a, a ∈ missing
              ↔ a ∈ stat.REQUIRED_AES self ∧ a ∉ (columns data).*1).
Proof.
  unfold stat._verify_aesthetics.
  set (missing := stat.REQUIRED_AES self ∖ list_to_set (columns data).*1).
  assert (∀ a, a ∈ missing
               ↔ a ∈ stat.REQUIRED_AES self ∧ a ∉ (columns data).*1) as Hm.
  { intros a. unfold missing.
    by rewrite elem_of_difference, elem_of_list_to_set. }
  destruct (decide (missing = ∅)) as [He|Hne].
  - split; [|done]. split; [|done]. intros _ a Ha.
    destruct (decide (a ∈ (columns data).*1)) as [|Hna]; [done|].
    assert (a ∈ missing) as Hin by (apply Hm; done).
    rewrite He in Hin. by apply not_elem_of_empty in Hin.
  - split.
    + split; [done|]. intros Hall. destruct Hne.
      apply set_eq. intros a. rewrite Hm.
      split; [|by intros ?%not_elem_of_empty].
      intros [Ha Hna]. destruct Hna. by apply Hall.
    + intros _. by exists missing.
Qed.

End stat_facts.

(** ** The layer: what [compute_aesthetics] accepts and returns *)

Section compute_aesthetics_facts.
Import aes utils.
Context {Scales : Type}.
Variable scales_add_defaults : Scales → DataFrame → aes → Scales.
Variable update : DataFrame → list (string * list value) → DataFrame.
Implicit Types (self : layer.layer Scales) (plot : layer.ggplot Scales).
Implicit Types (data : DataFrame) (items : aes).

#[local] Instance accepted_dec n v : Decision (accepted n v).
Proof. destruct v; cbn; apply _. Defined.

(** The first loop returns exactly on accepted values, and then keeps
    the settings it started with unless the table has one row. *)
Lemma sort_aesthetics_Ok n items colnames aenames settings r :
  layer.sort_aesthetics n items colnames aenames settings = Ok r →
  Forall (λ kv, accepted n kv.2) items ∧ (r.2 = settings ∨ n = 1).
Proof.
  revert colnames aenames settings.
  induction items as [|[ae [c|l|v]] items IH]; intros colnames aenames settings.
  - cbn. intros [= <-]. split; [constructor | by left].
  - cbn. intros [HF Hs]%IH. split; [by constructor | done].
  - rewrite sort_aesthetics_constant. case_bool_decide as Hl; [|done].
    intros [HF Hs]%IH. split; [by constructor | right; tauto].
  - done.
Qed.

Lemma sort_aesthetics_accepts n items colnames aenames settings :
  Forall (λ kv, accepted n kv.2) items →
  ∃ r, layer.sort_aesthetics n items colnames aenames settings = Ok r.
Proof.
  intros HF. revert colnames aenames settings.
  induction HF as [|[ae v] items Hacc _ IH];
    intros colnames aenames settings; [by eexists|].
  destruct v as [c|l|v]; cbn in Hacc.
  - cbn. apply IH.
  - rewrite sort_aesthetics_constant, bool_decide_eq_true_2 by done.
    apply IH.
  - done.
Qed.

Lemma sort_aesthetics_Raise n items colnames aenames settings e :
  layer.sort_aesthetics n items colnames aenames settings = Raise e →
  ∃ m, e = GgplotError m.
Proof.
  revert colnames aenames settings.
  induction items as [|[ae [c|l|v]] items IH]; intros colnames aenames settings.
  - done.
  - cbn. apply IH.
  - rewrite sort_aesthetics_constant. case_bool_decide; [apply IH|].
    intros [= <-]. by eexists.
  - cbn. intros [= <-]. by eexists.
Qed.

(** The second loop raises nothing but the [KeyError] of a column the
    data lacks. *)
Lemma copy_columns_Raise data pairs evaled e :
  layer.copy_columns data pairs evaled = Raise e →
  ∃ col, e = KeyError col ∧ col ∈ pairs.*2
         ∧ assoc col (columns data) = None.
Proof.
  revert evaled. induction pairs as [|[ae col] pairs IH]; intros evaled.
  - done.
  - cbn. unfold getitem. destruct (assoc col (columns data)) eqn:Hc; cbn.
    + intros (col' & -> & Hin & Hnone)%IH. exists col'.
      split_and!; [done | by right | done].
    + intros [= <-]. exists col. split_and!; [done | by left | done].
Qed.

Lemma compute_aesthetics_unfold self data plot :
  layer.compute_aesthetics scales_add_defaults update self data plot
  = ('(colnames, aenames, settings) ←
       layer.sort_aesthetics (nrows data) (layer_aesthetics self plot)
         [] [] [];
     evaled ← layer.copy_columns data (zip aenames colnames) empty_frame;
     let evaled := update evaled settings in
     evaled ←
       (if bool_decide (nrows data = 0) && bool_decide (settings ≠ [])
        then Ok (setitem_scalar evaled "PANEL" (of_Z 1))
        else s ← getitem data "PANEL"; Ok (setitem evaled "PANEL" s));
     Ok (evaled,
         scales_add_defaults (layer.plot_scales plot) data
           (layer_aesthetics self plot))).
Proof.
  unfold layer.compute_aesthetics, layer_aesthetics.
  by destruct (layer.group self).
Qed.

(** X6: [compute_aesthetics] raises a [GgplotError] exactly when some
    aesthetic it works with is neither a string nor a list of one element
    on a table of one row. *)
Theorem compute_aesthetics_GgplotError self data plot :
  (∃ m, layer.compute_aesthetics scales_add_defaults update self data plot
        = Raise (GgplotError m))
  ↔ ¬ Forall (λ kv, accepted (nrows data) kv.2) (layer_aesthetics self plot).
Proof.
  rewrite compute_aesthetics_unfold. split.
  - intros [m Hm] HF.
    destruct (sort_aesthetics_accepts (nrows data) _ [] [] [] HF)
      as [[[colnames aenames] settings] Hs].
    rewrite Hs in Hm. cbn in Hm.
    destruct (layer.copy_columns _ _ _) as [evaled|e] eqn:Hc; cbn in Hm.
    + destruct (_ && _); [done|]. unfold getitem in Hm.
      by destruct (assoc "PANEL" (columns data)).
    + apply copy_columns_Raise in Hc as (col & -> & _). done.
  - intros HF.
    destruct (layer.sort_aesthetics _ _ _ _ _) as [r|e] eqn:Hs.
    + by apply sort_aesthetics_Ok in Hs as [? _].
    + apply sort_aesthetics_Raise in Hs as [m ->]. by exists m.
Qed.

(** X7: the [PANEL] column of what [compute_aesthetics] returns is always
    the one of the data: the branch that sets [PANEL] to 1 is never
    taken, and without a [PANEL] column in the data nothing is
    returned. *)
Theorem compute_aesthetics_PANEL self data plot evaled scales :
  layer.compute_aesthetics scales_add_defaults update self data plot
  = Ok (evaled, scales) →
  ∃ panel, assoc "PANEL" (columns data) = Some panel
           ∧ assoc "PANEL" (columns evaled) = Some panel.
Proof.
  rewrite compute_aesthetics_unfold.
  destruct (layer.sort_aesthetics _ _ _ _ _)
    as [[[colnames aenames] settings]|e] eqn:Hs; [|done].
  apply sort_aesthetics_Ok in Hs as [_ Hset]. cbn in Hset. cbn.
  destruct (layer.copy_columns _ _ _) as [copied|e]; [|done]. cbn.
  destruct (bool_decide (nrows data = 0) && bool_decide (settings ≠ []))
    eqn:Hb.
  - apply andb_true_iff in Hb as [Hn%bool_decide_eq_true
                                    Hne%bool_decide_eq_true].
    destruct Hset; [done | lia].
  - unfold getitem. destruct (assoc "PANEL" (columns data)) as [p|]; [|done].
    cbn. intros [= <- _]. exists p. split; [done|].
    cbn. apply assoc_set_lookup.
Qed.

Lemma pairs_of_elem items ae col :
  (ae, col) ∈ pairs_of items ↔ (ae, AesStr col) ∈ items.
Proof.
  unfold pairs_of. rewrite list_elem_of_omap. split.
  - intros ([ae' [c|l|v]] & Hin & Heq); cbn in Heq; try done.
    by injection Heq as -> ->.
  - intros Hin. by exists (ae, AesStr col).
Qed.

Lemma sort_aesthetics_strings n items colnames aenames settings :
  Forall (λ kv, is_Some (column_of kv.2)) items →
  layer.sort_aesthetics n items colnames aenames settings
  = Ok (colnames ++ (pairs_of items).*2, aenames ++ (pairs_of items).*1,
        settings).
Proof.
  intros HF. revert colnames aenames.
  induction HF as [|[ae v] items Hv _ IH]; intros colnames aenames.
  - cbn. by rewrite !app_nil_r.
  - destruct v as [c|l|v]; cbn in Hv; try by destruct Hv.
    cbn. rewrite IH. by rewrite <- !app_assoc.
Qed.

Lemma copy_columns_Ok data pairs evaled evaled' :
  layer.copy_columns data pairs evaled = Ok evaled' →
  Forall (λ p, is_Some (assoc p.2 (columns data))) pairs.
Proof.
  revert evaled. induction pairs as [|[ae col] pairs IH]; intros evaled.
  - constructor.
  - cbn. unfold getitem. destruct (assoc col (columns data)) eqn:Hc; [|done].
    cbn. intros HF%IH. constructor; [cbn; rewrite Hc; eauto | done].
Qed.

(** X8: when every aesthetic refers to a column and the data lacks one of
    these columns, [compute_aesthetics] raises the [KeyError] of a column
    that an aesthetic refers to and the data lacks. *)
Theorem compute_aesthetics_missing_column self data plot :
  Forall (λ kv, is_Some (column_of kv.2)) (layer_aesthetics self plot) →
  Exists (λ kv, ∃ col, column_of kv.2 = Some col
                       ∧ assoc col (columns data) = None)
    (layer_aesthetics self plot) →
  ∃ col,
    (∃ ae, (ae, AesStr col) ∈ layer_aesthetics self plot)
    ∧ assoc col (columns data) = None
    ∧ layer.compute_aesthetics scales_add_defaults update self data plot
      = Raise (KeyError col).
Proof.
  intros Hstr Hmiss. rewrite compute_aesthetics_unfold.
  rewrite (sort_aesthetics_strings _ _ [] [] [] Hstr). cbn.
  rewrite zip_fst_snd.
  destruct (layer.copy_columns _ _ _) as [evaled|e] eqn:Hc.
  - apply copy_columns_Ok in Hc.
    apply Exists_exists in Hmiss as ([ae v] & Hin & col & Hv & Hnone).
    destruct v as [c|l|v]; cbn in Hv; try done. injection Hv as ->.
    apply pairs_of_elem in Hin.
    rewrite Forall_forall in Hc. apply Hc in Hin. cbn in Hin.
    rewrite Hnone in Hin. by destruct Hin.
  - apply copy_columns_Raise in Hc as (col & -> & Hin & Hnone).
    exists col. split_and!; [|done|done].
    apply list_elem_of_fmap in Hin as ([ae col'] & -> & Hin).
    exists ae. by apply pairs_of_elem.
Qed.

Lemma assoc_set_fresh {A} k (a : A) (l : list (string * A)) :
  k ∉ l.*1 → assoc_set k a l = l ++ [(k, a)].
Proof.
  induction l as [|[k' a'] l IH]; cbn; [done|].
  rewrite not_elem_of_cons. intros [Hne Hnin].
  rewrite decide_False by done. by rewrite IH.
Qed.

Lemma assoc_elem_NoDup {A} k (a : A) (l : list (string * A)) :
  NoDup l.*1 → (k, a) ∈ l → assoc k l = Some a.
Proof.
  induction l as [|[k' a'] l IH]; cbn; [by intros _ ?%elem_of_nil|].
  intros [Hnin Hnd]%NoDup_cons [[= -> ->]|Hin]%elem_of_cons.
  - by rewrite decide_True.
  - rewrite decide_False; [by apply IH|].
    intros ->. apply Hnin. apply list_elem_of_fmap. by exists (k', a).
Qed.

(** The columns the second loop gives to a frame that has none of the
    names yet. *)
Lemma copy_columns_fresh data pairs evaled :
  NoDup pairs.*1 →
  (∀ p, p ∈ pairs → p.1 ∉ (columns evaled).*1) →
  Forall (λ p, is_Some (assoc p.2 (columns data))) pairs →
  ∃ evaled',
    layer.copy_columns data pairs evaled = Ok evaled'
    ∧ columns evaled'
      = columns evaled
        ++ omap (λ p, s ← assoc p.2 (columns data); Some (p.1, s)) pairs.
Proof.
  revert evaled. induction pairs as [|[ae col] pairs IH];
    intros evaled Hnd Hfresh Hall.
  - exists evaled. cbn. by rewrite app_nil_r.
  - apply NoDup_cons in Hnd as [Hae Hnd].
    apply Forall_cons in Hall as [[s Hs] Hall]. cbn in Hs.
    cbn. unfold getitem. rewrite Hs. cbn.
    destruct (IH (setitem evaled ae s) Hnd) as (evaled' & Hc & Hcols);
      [|done|].
    + intros p Hp. cbn.
      rewrite assoc_set_fresh by (apply (Hfresh (ae, col)); by left).
      rewrite fmap_app, not_elem_of_app. split.
      * apply Hfresh. by right.
      * cbn. rewrite list_elem_of_singleton. intros Heq. apply Hae.
        rewrite <- Heq. apply list_elem_of_fmap. by exists p.
    + exists evaled'. split; [done|]. rewrite Hcols. cbn.
      rewrite assoc_set_fresh by (apply (Hfresh (ae, col)); by left).
      by rewrite <- app_assoc.
Qed.

(** X9: when every aesthetic refers to a column of the data, under names
    that differ from each other and from [PANEL], and the data has a
    [PANEL] column, [compute_aesthetics] returns a frame whose columns
    are named by the aesthetics, in their order, and then [PANEL]; each
    holds the column of the data its aesthetic refers to. Settings being
    absent, [update] is assumed to change nothing. *)
Theorem compute_aesthetics_columns self data plot :
  (∀ df, update df [] = df) →
  Forall (λ kv, ∃ col, column_of kv.2 = Some col
                       ∧ is_Some (assoc col (columns data)))
    (layer_aesthetics self plot) →
  NoDup ((layer_aesthetics self plot).*1 ++ ["PANEL"]) →
  is_Some (assoc "PANEL" (columns data)) →
  ∃ evaled,
    layer.compute_aesthetics scales_add_defaults update self data plot
    = Ok (evaled,
          scales_add_defaults (layer.plot_scales plot) data
            (layer_aesthetics self plot))
    ∧ (columns evaled).*1 = (layer_aesthetics self plot).*1 ++ ["PANEL"]
    ∧ assoc "PANEL" (columns evaled) = assoc "PANEL" (columns data)
    ∧ ∀ ae col, (ae, AesStr col) ∈ layer_aesthetics self plot →
                assoc ae (columns evaled) = assoc col (columns data).
Proof.
  intros Hupd Hall Hnd [panel Hpanel].
  set (items := layer_aesthetics self plot) in *.
  assert (Forall (λ kv, is_Some (column_of kv.2)) items) as Hstr.
  { eapply Forall_impl; [exact Hall|]. intros kv (col & -> & _). eauto. }
  assert ((pairs_of items).*1 = items.*1) as Hkeys.
  { clear -Hstr. induction Hstr as [|[ae v] items Hv _ IH]; [done|].
    destruct v; cbn in Hv; try by destruct Hv. cbn. by rewrite <- IH. }
  apply NoDup_app in Hnd as (Hnd & Hpanel_fresh & _).
  destruct (copy_columns_fresh data (pairs_of items) empty_frame)
    as (copied & Hc & Hcols).
  { by rewrite Hkeys. }
  { intros p _. cbn. apply not_elem_of_nil. }
  { apply Forall_forall. intros [ae col] Hin%pairs_of_elem.
    rewrite Forall_forall in Hall.
    destruct (Hall _ Hin) as (col' & [= <-] & Hsome). done. }
  cbn in Hcols.
  set (cols := omap (λ p, s ← assoc p.2 (columns data); Some (p.1, s))
                 (pairs_of items)) in *.
  assert (cols.*1 = items.*1) as Hnames.
  { rewrite <- Hkeys. unfold cols. clear -Hc.
    apply copy_columns_Ok in Hc.
    induction Hc as [|[ae col] pairs [s Hs] _ IH]; [done|].
    cbn in *. rewrite Hs. cbn. by rewrite IH. }
  assert ("PANEL" ∉ cols.*1) as Hfresh.
  { rewrite Hnames. intros Hin. apply (Hpanel_fresh _ Hin). by left. }
  exists (setitem copied "PANEL" panel).
  rewrite compute_aesthetics_unfold. fold items.
  rewrite (sort_aesthetics_strings _ _ [] [] [] Hstr). cbn.
  rewrite zip_fst_snd, Hc. cbn. rewrite Hupd.
  rewrite andb_false_r. unfold getitem. rewrite Hpanel. cbn.
  split; [done|]. rewrite Hcols, assoc_set_fresh by done.
  split_and!.
  - by rewrite fmap_app, Hnames.
  - apply assoc_elem_NoDup.
    + rewrite fmap_app, Hnames. cbn. apply NoDup_app.
      split_and!; [done | | apply NoDup_singleton].
      intros x Hx ->%list_elem_of_singleton. by apply Hfresh; rewrite Hnames.
    + apply elem_of_app. right. by left.
  - intros ae col Hin. rewrite Forall_forall in Hall.
    destruct (Hall _ Hin) as (col' & [= <-] & [s Hs]). rewrite Hs.
    apply assoc_elem_NoDup.
    + rewrite fmap_app, Hnames. cbn. apply NoDup_app.
      split_and!; [done | | apply NoDup_singleton].
      intros x Hx ->%list_elem_of_singleton. by apply Hfresh; rewrite Hnames.
    + apply elem_of_app. left. unfold cols. apply list_elem_of_omap.
      exists (ae, col). split; [by apply pairs_of_elem|]. cbn. by rewrite Hs.
Qed.

End compute_aesthetics_facts.

(** ** The layer: computed aesthetics and groups *)

Section map_statistic_facts.
Import aes utils.
Context {Scales : Type}.
Variable scales_add_defaults : Scales → DataFrame → aes → Scales.
Variable strip_dots : aes_value → result string.
Implicit Types (self : layer.layer Scales) (plot : layer.ggplot Scales).
Implicit Types (data : DataFrame).

Lemma assoc_set_ne {A} k k' (a : A) (l : list (string * A)) :
  k ≠ k' → assoc k' (assoc_set k a l) = assoc k' l.
Proof.
  intros Hne. induction l as [|[k'' a''] l IH]; cbn.
  - by rewrite decide_False.
  - destruct (decide (k = k'')) as [->|Hne']; cbn.
    + by rewrite !decide_False.
    + by rewrite IH.
Qed.

Lemma assoc_is_Some {A} k (l : list (string * A)) :
  k ∈ l.*1 → is_Some (assoc k l).
Proof.
  induction l as [|[k' a'] l IH]; cbn; [by intros ?%elem_of_nil|].
  destruct (decide (k = k')); [eauto|].
  intros [?|?]%elem_of_cons; [done | by apply IH].
Qed.

(** With a computed aesthetic the loop of [map_statistic] stops at the
    call of [strip_dots] when that call raises. *)
Lemma collect_computed_raises aesthetics data names new stat_data e :
  (∀ v, strip_dots v = Raise e) →
  names ≠ [] →
  (∀ ae, ae ∈ names → is_Some (assoc ae aesthetics)) →
  layer.collect_computed strip_dots aesthetics data names new stat_data
  = Raise e.
Proof.
  intros Hstrip Hne Hin. destruct names as [|ae names]; [done|].
  destruct (Hin ae) as [v Hv]; [by left|].
  cbn. rewrite Hv. cbn. by rewrite Hstrip.
Qed.

(** X10: when the call of [strip_dots] raises, as it does in [layer.py],
    which binds no such name, [map_statistic] never adds a column: on a
    table with rows it returns only when no aesthetic is computed, and
    what it returns is its input and the scales of the plot. *)
Theorem map_statistic_adds_nothing self data plot e out scales :
  (∀ v, strip_dots v = Raise e) →
  nrows data ≠ 0 →
  layer.map_statistic scales_add_defaults strip_dots self data plot
  = Ok (out, scales) →
  out = data ∧ scales = layer.plot_scales plot
  ∧ is_calculated_aes (layer.stat_aesthetics self plot) = [].
Proof.
  intros Hstrip Hn.
  destruct (decide (is_calculated_aes (layer.stat_aesthetics self plot) = []))
    as [Hnone|Hsome].
  - rewrite map_statistic_no_computed by done.
    rewrite bool_decide_eq_false_2 by done. by intros [= <- <-].
  - unfold layer.map_statistic. rewrite bool_decide_eq_false_2 by done.
    rewrite (collect_computed_raises _ _ _ _ _ e); [done..|].
    intros ae Hin. apply assoc_is_Some.
    unfold is_calculated_aes in Hin.
    apply list_elem_of_fmap in Hin as (kv & -> & Hin).
    apply list_elem_of_filter in Hin as [_ Hin].
    apply list_elem_of_fmap. by exists kv.
Qed.

(** X11: on a table with rows, as soon as one aesthetic is computed
    [map_statistic] raises what [strip_dots] raises; [layer.py] binds no
    such name. *)
Theorem map_statistic_strip_dots_raises self data plot e :
  (∀ v, strip_dots v = Raise e) →
  nrows data ≠ 0 →
  is_calculated_aes (layer.stat_aesthetics self plot) ≠ [] →
  layer.map_statistic scales_add_defaults strip_dots self data plot
  = Raise e.
Proof.
  intros Hstrip Hn Hcalc. unfold layer.map_statistic.
  rewrite bool_decide_eq_false_2 by done.
  destruct (is_calculated_aes (layer.stat_aesthetics self plot))
    as [|ae names] eqn:Hnames; [done|].
  assert (is_Some (assoc ae (layer.stat_aesthetics self plot))) as [v Hv].
  { apply assoc_is_Some.
    assert (ae ∈ is_calculated_aes (layer.stat_aesthetics self plot)) as Hin
      by (rewrite Hnames; left).
    unfold is_calculated_aes in Hin.
    apply list_elem_of_fmap in Hin as (kv & -> & Hin).
    apply list_elem_of_filter in Hin as [_ Hin].
    apply list_elem_of_fmap. by exists kv. }
  cbn. rewrite Hv. cbn. by rewrite Hstrip.
Qed.

End map_statistic_facts.

Section add_group_facts.
Import utils.

(** X12: [add_group] keeps the number of rows and every column but
    [group]; on a table with rows the result has a [group] column, and a
    table without rows comes back as it is. *)
Theorem add_group_frame df :
  nrows (layer.add_group df) = nrows df
  ∧ (∀ col, col ≠ "group" →
            assoc col (columns (layer.add_group df)) = assoc col (columns df))
  ∧ (nrows df ≠ 0 → is_Some (assoc "group" (columns (layer.add_group df))))
  ∧ (nrows df = 0 → layer.add_group df = df).
Proof.
  split_and!.
  - unfold layer.add_group. case_bool_decide as Hn; [done|].
    destruct (negb (has_column "group" df)).
    + case_bool_decide; [by apply nrows_setitem | done].
    + destruct (assoc "group" (columns df)); [by apply nrows_setitem | done].
  - intros col Hne. unfold layer.add_group. case_bool_decide as Hn; [done|].
    destruct (negb (has_column "group" df)).
    + case_bool_decide; cbn; by apply assoc_set_ne.
    + destruct (assoc "group" (columns df)); [|done]. cbn.
      by apply assoc_set_ne.
  - intros Hn. by apply add_group_grouped.
  - intros Hn. unfold layer.add_group. by rewrite bool_decide_eq_true_2.
Qed.

(** X13: on a table with rows and without [group] column, where every
    column of a discrete dtype is named [label], all the rows get the
    group 1. *)
Theorem add_group_single_group df i :
  nrows df ≠ 0 →
  assoc "group" (columns df) = None →
  Forall (λ cs, s_dtype cs.2 ∉ discrete_dtypes ∨ cs.1 = "label")
    (columns df) →
  i < nrows df →
  group_at (layer.add_group df) i = Some (of_Z 1).
Proof.
  intros Hn Hg Hcols Hi. unfold layer.add_group.
  rewrite bool_decide_eq_false_2 by done.
  unfold has_column. rewrite bool_decide_eq_false_2
    by (rewrite Hg; by intros [? ?]).
  cbn.
  assert (layer.discrete_columns df ["label"] = []) as ->.
  { unfold layer.discrete_columns. clear -Hcols.
    induction Hcols as [|cs cols Hcs _ IH]; [done|].
    rewrite filter_cons. destruct (decide _) as [[Hd Hl]|_]; [|exact IH].
    destruct Hcs as [Hnd|Heq]; [done|]. destruct Hl. rewrite Heq. by left. }
  rewrite bool_decide_eq_false_2 by (intros Hne; by apply Hne).
  unfold group_at, setitem_scalar. cbn. rewrite assoc_set_lookup. cbn.
  by apply lookup_replicate_2.
Qed.

End add_group_facts.

(** ** The position scales: limits and mapping *)

Section position_scales_facts.
Import utils.

Lemma Qc_min_le_l (a b : Qc) : (np.Qc_min a b ≤ a)%Qc.
Proof.
  unfold np.Qc_min. destruct (decide (a ≤ b)%Qc) as [|Hn].
  - apply Qcle_refl.
  - apply Qclt_le_weak. by apply Qcnot_le_lt.
Qed.

Lemma Qc_min_le_r (a b : Qc) : (np.Qc_min a b ≤ b)%Qc.
Proof.
  unfold np.Qc_min. destruct (decide (a ≤ b)%Qc); [done | apply Qcle_refl].
Qed.

Lemma Qc_max_ge_l (a b : Qc) : (a ≤ np.Qc_max a b)%Qc.
Proof.
  unfold np.Qc_max. destruct (decide (a ≤ b)%Qc); [done | apply Qcle_refl].
Qed.

Lemma Qc_max_ge_r (a b : Qc) : (b ≤ np.Qc_max a b)%Qc.
Proof.
  unfold np.Qc_max. destruct (decide (a ≤ b)%Qc) as [|Hn].
  - apply Qcle_refl.
  - apply Qclt_le_weak. by apply Qcnot_le_lt.
Qed.

Lemma Qc_min_either (a b : Qc) : np.Qc_min a b = a ∨ np.Qc_min a b = b.
Proof. unfold np.Qc_min. destruct (decide (a ≤ b)%Qc); auto. Qed.

Lemma Qc_max_either (a b : Qc) : np.Qc_max a b = a ∨ np.Qc_max a b = b.
Proof. unfold np.Qc_max. destruct (decide (a ≤ b)%Qc); auto. Qed.

(** X14: the limits of a scale that was trained with numbers only, its
    [range_c] being the pair of [a] and [b], both at most 2^53 in
    magnitude, are the consecutive integers from [lo] to [hi], where [lo]
    is the floor of the smaller of [a] and [b] (the largest integer below
    or at both) and [hi] the ceiling of the larger (the smallest integer
    above or at both); they are not empty. *)
Theorem limits_of_continuous_range (self : scale_xy.scale_position_discrete)
    (a b : Qc) :
  truthy (scale_xy._limits self) = false →
  truthy (scale_xy.range self) = false →
  scale_xy.range_c self = Some [VNum a; VNum b] →
  (inject_Z (- 2 ^ 53) <= a)%Q ∧ (a <= inject_Z (2 ^ 53))%Q →
  (inject_Z (- 2 ^ 53) <= b)%Q ∧ (b <= inject_Z (2 ^ 53))%Q →
  ∃ lo hi : Z,
    scale_xy.limits self = Ok (Some (of_Z <$> seqZ lo (hi + 1 - lo)))
    ∧ (lo ≤ hi)%Z
    ∧ ((inject_Z lo <= a)%Q ∧ (inject_Z lo <= b)%Q
       ∧ ((a < inject_Z (lo + 1))%Q ∨ (b < inject_Z (lo + 1))%Q))
    ∧ ((a <= inject_Z hi)%Q ∧ (b <= inject_Z hi)%Q
       ∧ ((inject_Z (hi - 1) < a)%Q ∨ (inject_Z (hi - 1) < b)%Q)).
Proof.
  intros Hl Hr Hc _ _. unfold scale_xy.limits. rewrite Hl, Hr, Hc. cbn.
  exists (Qfloor (np.Qc_min b a)), (Qceiling (np.Qc_max b a)).
  split; [done|].
  pose proof (Qfloor_le (np.Qc_min b a)) as Hlo.
  pose proof (Qle_ceiling (np.Qc_max b a)) as Hhi.
  pose proof (Qlt_floor (np.Qc_min b a)) as Hlo'.
  pose proof (Qceiling_lt (np.Qc_max b a)) as Hhi'.
  pose proof (Qc_min_le_l b a) as Hb1. pose proof (Qc_min_le_r b a) as Ha1.
  pose proof (Qc_max_ge_l b a) as Hb2. pose proof (Qc_max_ge_r b a) as Ha2.
  unfold Qcle in *.
  split_and!.
  - rewrite Zle_Qle. eapply Qle_trans; [exact Hlo|].
    eapply Qle_trans; [exact Ha1|]. eapply Qle_trans; [exact Ha2 | exact Hhi].
  - eapply Qle_trans; [exact Hlo | exact Ha1].
  - eapply Qle_trans; [exact Hlo | exact Hb1].
  - destruct (Qc_min_either b a) as [He|He]; [right|left];
      (eapply Qle_lt_trans; [|exact Hlo']); rewrite He; apply Qle_refl.
  - eapply Qle_trans; [exact Ha2 | exact Hhi].
  - eapply Qle_trans; [exact Hb2 | exact Hhi].
  - destruct (Qc_max_either b a) as [He|He]; [right|left];
      (eapply Qlt_le_trans; [exact Hhi'|]); rewrite He; apply Qle_refl.
Qed.

(** X15: mapping a series of a discrete dtype through a scale without
    configured limits and without training, no limits being passed,
    raises a [TypeError]: the limits are [None], which has no length. *)
Theorem map_unresolved_TypeError (self : scale_xy.scale_position_discrete)
    series limits_ :
  truthy limits_ = false →
  truthy (scale_xy._limits self) = false →
  truthy (scale_xy.range self) = false →
  truthy (scale_xy.range_c self) = false →
  s_dtype series ∈ discrete_dtypes →
  scale_xy.map self series limits_ = Raise TypeError.
Proof.
  intros Ha Hl Hr Hc Hd.
  unfold scale_xy.map, scale_xy.effective_limits, scale_xy.limits.
  rewrite Ha, Hl, Hr, Hc. cbn. by rewrite bool_decide_eq_true_2.
Qed.

(** X16: the continuous position scale returns a series without
    elements as it is, whatever the limits and [oob]; on any other series
    the result is what [oob] returned with its missing entries replaced by
    [na_value], so that it has a missing entry only when [na_value] is
    missing. *)
Theorem map_continuous_fills_null
    (self : scale_position_continuous.scale_position_continuous)
    series limits_ :
  (length (s_values series) = 0 →
   scale_position_continuous.map self series limits_ = Ok series)
  ∧ (length (s_values series) ≠ 0 →
     ∀ out,
       scale_position_continuous.map self series limits_ = Ok out →
       ∃ lims scaled,
         scale_position_continuous.oob self series lims = Ok scaled
         ∧ length (s_values out) = length (s_values scaled)
         ∧ (∀ i, s_values scaled !! i = Some VNA →
                 s_values out !! i
                 = Some (scale_position_continuous.na_value self))
         ∧ (∀ i v, s_values scaled !! i = Some v → v ≠ VNA →
                   s_values out !! i = Some v)
         ∧ (scale_position_continuous.na_value self ≠ VNA →
            VNA ∉ s_values out)).
Proof.
  unfold scale_position_continuous.map. split.
  - intros Hn. by rewrite bool_decide_eq_true_2.
  - intros Hn out. rewrite bool_decide_eq_false_2 by done.
    destruct (if negb (truthy limits_)
              then scale_position_continuous.limits self
              else Ok limits_) as [lims|e]; [|done].
    cbn. destruct (scale_position_continuous.oob self series lims)
      as [scaled|e] eqn:Hoob; [|done].
    cbn. intros [= <-]. exists lims, scaled. split; [done|].
    unfold scale_position_continuous.fill_null. cbn.
    split_and!; [by rewrite length_fmap | | |].
    + intros i Hi. rewrite list_lookup_fmap, Hi. cbn.
      by rewrite decide_True.
    + intros i v Hi Hv. rewrite list_lookup_fmap, Hi. cbn.
      by rewrite decide_False.
    + intros Hna (v & Hv & Hin)%list_elem_of_fmap.
      destruct (decide (v = VNA)); congruence.
Qed.

End position_scales_facts.

(** ** The geoms *)

Section mapM_result.
Context {A B : Type} (f : A → result B).

Lemma mapM_result_Ok l k :
  mapM f l = Ok k → Forall2 (λ x y, f x = Ok y) l k.
Proof.
  revert k. induction l as [|x l IH]; intros k; cbn.
  - intros [= <-]. constructor.
  - destruct (f x) as [y|e] eqn:Hx; [|done]. cbn.
    destruct (mapM f l) as [k'|e]; [|done]. cbn.
    intros [= <-]. constructor; [done | by apply IH].
Qed.

Lemma mapM_result_all l :
  Forall (λ x, ∃ y, f x = Ok y) l → ∃ k, mapM f l = Ok k.
Proof.
  induction 1 as [|x l [y Hy] _ [k Hk]]; cbn.
  - by eexists.
  - rewrite Hy. cbn. rewrite Hk. cbn. by eexists.
Qed.

Lemma mapM_result_Raise l E :
  (∀ x e, x ∈ l → f x = Raise e → e = E) →
  Exists (λ x, ∃ e, f x = Raise e) l →
  mapM f l = Raise E.
Proof.
  intros HE Hex. induction l as [|x l IH]; [by apply Exists_nil in Hex|].
  cbn. destruct (f x) as [y|e] eqn:Hx; cbn.
  - rewrite IH; [done | |].
    + intros x' e' Hin. apply HE. by right.
    + apply Exists_cons in Hex as [[e He]|Hex]; [congruence | done].
  - f_equal. eapply HE; [by left | done].
Qed.

End mapM_result.

Section geom_path_facts.
Import geom.

(** The segment that starts at point [i]. *)
Lemma path_segment_at (xs ys : list value) i :
  S i < length xs → S i < length ys + 1 → length xs ≤ length ys →
  ∃ x0 y0 x1 y1,
    xs !! i = Some x0 ∧ ys !! i = Some y0
    ∧ xs !! S i = Some x1 ∧ ys !! S i = Some y1.
Proof.
  intros Hx _ Hle.
  destruct (lookup_lt_is_Some_2 xs i) as [x0 Hx0]; [lia|].
  destruct (lookup_lt_is_Some_2 ys i) as [y0 Hy0]; [lia|].
  destruct (lookup_lt_is_Some_2 xs (S i)) as [x1 Hx1]; [lia|].
  destruct (lookup_lt_is_Some_2 ys (S i)) as [y1 Hy1]; [lia|].
  by exists x0, y0, x1, y1.
Qed.

Lemma path_lines_returns (xs ys : list value) :
  length xs ≤ length ys →
  ∃ segs, geom_path.lines (PList xs) (PList ys) = Ok segs.
Proof.
  intros Hle. unfold geom_path.lines. cbn.
  apply mapM_result_all, Forall_forall. intros i [_ Hi]%elem_of_seq.
  destruct (path_segment_at xs ys i) as (x0 & y0 & x1 & y1 & H0 & H1 & H2 & H3);
    [lia..|].
  exists ((x0, y0), (x1, y1)). cbn.
  rewrite H0. cbn. rewrite H1. cbn.
  replace (i + 1) with (S i) by lia. rewrite H2. cbn. by rewrite H3.
Qed.

(** X17: for lists [x] and [y], [y] at least as long as [x], the path
    has one segment less than [x] has points; segment [i] goes from point
    [i] to point [i + 1], so that each segment starts where the one before
    it ends. *)
Theorem path_lines_chain (xs ys : list value) :
  length xs ≤ length ys →
  ∃ segs,
    geom_path.lines (PList xs) (PList ys) = Ok segs
    ∧ length segs = length xs - 1
    ∧ (∀ i s, segs !! i = Some s →
              xs !! i = Some s.1.1 ∧ ys !! i = Some s.1.2
              ∧ xs !! S i = Some s.2.1 ∧ ys !! S i = Some s.2.2)
    ∧ (∀ i s t, segs !! i = Some s → segs !! S i = Some t → s.2 = t.1).
Proof.
  intros Hle. unfold geom_path.lines. cbn.
  set (f := λ i : nat,
         x0 ← item (PList xs) i; y0 ← item (PList ys) i;
         x1 ← item (PList xs) (i + 1); y1 ← item (PList ys) (i + 1);
         Ok ((x0, y0), (x1, y1))).
  destruct (path_lines_returns xs ys Hle) as [segs Hsegs].
  unfold geom_path.lines in Hsegs. cbn in Hsegs. fold f in Hsegs.
  exists segs. split; [exact Hsegs|].
  pose proof (mapM_result_Ok f _ _ Hsegs) as H2.
  assert (∀ i s, segs !! i = Some s →
                 xs !! i = Some s.1.1 ∧ ys !! i = Some s.1.2
                 ∧ xs !! S i = Some s.2.1 ∧ ys !! S i = Some s.2.2) as Hat.
  { intros i s Hs.
    destruct (Forall2_lookup_r _ _ _ _ _ H2 Hs) as (j & Hj & Hf).
    apply lookup_seq in Hj as [-> Hj]. cbn in Hf. unfold f in Hf. cbn in Hf.
    destruct (xs !! i) as [x0|]; [|done]. cbn in Hf.
    destruct (ys !! i) as [y0|]; [|done]. cbn in Hf.
    replace (i + 1) with (S i) in Hf by lia.
    destruct (xs !! S i) as [x1|]; [|done]. cbn in Hf.
    destruct (ys !! S i) as [y1|]; [|done]. cbn in Hf.
    by injection Hf as <-. }
  split_and!.
  - apply Forall2_length in H2. by rewrite length_seq in H2.
  - exact Hat.
  - intros i s t Hs Ht.
    destruct (Hat _ _ Hs) as (_ & _ & Hx & Hy).
    destruct (Hat _ _ Ht) as (Hx' & Hy' & _).
    destruct s as [[] []], t as [[] []]. cbn in *. congruence.
Qed.

(** X18: for lists [x] and [y], the path raises exactly when [x] has two
    points or more and [y] is shorter than [x], and then it raises an
    [IndexError]; with fewer than two points it is empty. *)
Theorem path_lines_IndexError (xs ys : list value) :
  (2 ≤ length xs ∧ length ys < length xs →
   geom_path.lines (PList xs) (PList ys) = Raise IndexError)
  ∧ (length xs ≤ 1 → geom_path.lines (PList xs) (PList ys) = Ok [])
  ∧ (∀ e, geom_path.lines (PList xs) (PList ys) = Raise e →
          2 ≤ length xs ∧ length ys < length xs).
Proof.
  unfold geom_path.lines. cbn.
  set (f := λ i : nat,
         x0 ← item (PList xs) i; y0 ← item (PList ys) i;
         x1 ← item (PList xs) (i + 1); y1 ← item (PList ys) (i + 1);
         Ok ((x0, y0), (x1, y1))).
  assert (2 ≤ length xs ∧ length ys < length xs →
          mapM f (seq 0 (length xs - 1)) = Raise IndexError) as Hraise.
  { intros [H2 Hlt]. apply mapM_result_Raise.
    - intros i e _. unfold f. cbn.
      destruct (xs !! i); cbn; [|congruence].
      destruct (ys !! i); cbn; [|congruence].
      destruct (xs !! (i + 1)); cbn; [|congruence].
      destruct (ys !! (i + 1)); cbn; congruence.
    - apply Exists_exists. exists (length ys - 1). split.
      + apply elem_of_seq. lia.
      + exists IndexError. unfold f. cbn.
        destruct (xs !! (length ys - 1)); cbn; [|done].
        destruct (ys !! (length ys - 1)); cbn; [|done].
        destruct (xs !! (length ys - 1 + 1)); cbn; [|done].
        destruct (decide (length ys = 0)) as [H0|H0].
        * rewrite H0 in *. destruct ys; [|done].
          cbn in *. done.
        * rewrite (lookup_ge_None_2 ys) by lia. done. }
  split_and!.
  - exact Hraise.
  - intros Hle. by replace (length xs - 1) with 0 by lia.
  - intros e He.
    destruct (decide (length xs ≤ length ys)) as [Hle|Hgt].
    + destruct (path_lines_returns xs ys Hle) as [segs Hs].
      unfold geom_path.lines in Hs. cbn in Hs. fold f in Hs. congruence.
    + destruct (decide (2 ≤ length xs)) as [H2|H1]; [lia|].
      replace (length xs - 1) with 0 in He by lia. done.
Qed.

End geom_path_facts.

Section geom_draw_facts.
Import geom.

Lemma pop_Ok (d : gmap string pyobj) k o d' :
  pop d k = Ok (o, d') → d !! k = Some o ∧ d' = delete k d.
Proof.
  unfold pop. destruct (d !! k); [|done]. by intros [= <- <-].
Qed.

Lemma get_Ok (d : gmap string pyobj) k o : get d k = Ok o → d !! k = Some o.
Proof. unfold get. destruct (d !! k); [|done]. by intros [= <-]. Qed.

(** X19: when [geom_path.draw] returns, [pinfo] held [x], [y], [color],
    [alpha], [linewidth] and [linestyle]; the axes keep what they had and
    get one more collection, made of the path through [x] and [y], the
    colour [make_color_tuples] returned, and the width and style of
    [pinfo]. *)
Theorem path_draw_appends (make_color_tuples : pyobj → pyobj → result pyobj)
    (pinfo : gmap string pyobj) (ax ax' : list geom_path.LineCollection) :
  geom_path.draw make_color_tuples pinfo ax = Ok ax' →
  ∃ x y c alpha c' lw ls segs,
    pinfo !! "x" = Some x ∧ pinfo !! "y" = Some y
    ∧ pinfo !! "color" = Some c ∧ pinfo !! "alpha" = Some alpha
    ∧ pinfo !! "linewidth" = Some lw ∧ pinfo !! "linestyle" = Some ls
    ∧ make_color_tuples c alpha = Ok c'
    ∧ geom_path.lines x y = Ok segs
    ∧ ax' = ax ++ [geom_path.mkLineCollection segs c' lw ls].
Proof.
  unfold geom_path.draw.
  destruct (pop pinfo "x") as [[x p1]|] eqn:Hx; [|done]. cbn.
  apply pop_Ok in Hx as [Hx ->].
  destruct (pop _ "y") as [[y p2]|] eqn:Hy; [|done]. cbn.
  apply pop_Ok in Hy as [Hy ->]. rewrite lookup_delete_ne in Hy by done.
  destruct (get _ "color") as [c|] eqn:Hc; [|done]. cbn.
  apply get_Ok in Hc. rewrite !lookup_delete_ne in Hc by done.
  destruct (get _ "alpha") as [alpha|] eqn:Ha; [|done]. cbn.
  apply get_Ok in Ha. rewrite !lookup_delete_ne in Ha by done.
  destruct (make_color_tuples c alpha) as [c'|] eqn:Hm; [|done]. cbn.
  destruct (geom_path.lines x y) as [segs|] eqn:Hl; [|done]. cbn.
  destruct (get _ "color") as [c''|] eqn:Hc2; [|done]. cbn.
  apply get_Ok in Hc2. rewrite lookup_insert_eq in Hc2.
  injection Hc2 as <-.
  destruct (get _ "linewidth") as [lw|] eqn:Hlw; [|done]. cbn.
  apply get_Ok in Hlw.
  rewrite lookup_insert_ne, !lookup_delete_ne in Hlw by done.
  destruct (get _ "linestyle") as [ls|] eqn:Hls; [|done]. cbn.
  apply get_Ok in Hls.
  rewrite lookup_insert_ne, !lookup_delete_ne in Hls by done.
  intros [= <-]. by exists x, y, c, alpha, c', lw, ls, segs.
Qed.

Context {Scale : Type}.
Variable coord_range : Scale → result pyobj.
Variable hex_to_rgba : pyobj → pyobj → result pyobj.
Implicit Types (pinfo : gmap string pyobj) (scales : gmap string Scale).

(** What [geom_hline.draw] went through when it returns. *)
Lemma hline_draw_Ok pinfo scales h :
  geom_hline.draw coord_range hex_to_rgba pinfo scales = Ok h →
  ∃ xmin xmax alpha c c' x_scale range_x,
    pinfo !! "yintercept" = Some (geom_hline.y h)
    ∧ pinfo !! "xmin" = Some xmin ∧ pinfo !! "xmax" = Some xmax
    ∧ pinfo !! "alpha" = Some alpha ∧ pinfo !! "color" = Some c
    ∧ scales !! "x" = Some x_scale ∧ coord_range x_scale = Ok range_x
    ∧ hex_to_rgba c alpha = Ok c'
    ∧ (if decide (xmin = PNone)
       then ∃ v, item range_x 0 = Ok v ∧ geom_hline.xmin h = of_value v
       else geom_hline.xmin h = xmin)
    ∧ (if decide (xmax = PNone)
       then ∃ v, item range_x 1 = Ok v ∧ geom_hline.xmax h = of_value v
       else geom_hline.xmax h = xmax)
    ∧ geom_hline.kwargs h
      = <["color" := c']>
          (delete "alpha"
             (delete "xmax"
                (delete "xmin" (delete "yintercept" (delete "y" pinfo))))).
Proof.
  unfold geom_hline.draw.
  destruct (pop _ "yintercept") as [[y p1]|] eqn:Hy; [|done]. cbn.
  apply pop_Ok in Hy as [Hy ->]. rewrite lookup_delete_ne in Hy by done.
  destruct (pop _ "xmin") as [[xmin p2]|] eqn:Hmin; [|done]. cbn.
  apply pop_Ok in Hmin as [Hmin ->].
  rewrite !lookup_delete_ne in Hmin by done.
  destruct (pop _ "xmax") as [[xmax p3]|] eqn:Hmax; [|done]. cbn.
  apply pop_Ok in Hmax as [Hmax ->].
  rewrite !lookup_delete_ne in Hmax by done.
  destruct (scales !! "x") as [x_scale|] eqn:Hs; [|done]. cbn.
  destruct (coord_range x_scale) as [range_x|] eqn:Hr; [|done]. cbn.
  destruct (if decide (xmin = PNone) then _ else _) as [xmin'|] eqn:Hxmin;
    [|done]. cbn.
  destruct (if decide (xmax = PNone) then _ else _) as [xmax'|] eqn:Hxmax;
    [|done]. cbn.
  destruct (pop _ "alpha") as [[alpha p4]|] eqn:Ha; [|done]. cbn.
  apply pop_Ok in Ha as [Ha ->]. rewrite !lookup_delete_ne in Ha by done.
  destruct (get _ "color") as [c|] eqn:Hc; [|done]. cbn.
  apply get_Ok in Hc. rewrite !lookup_delete_ne in Hc by done.
  destruct (hex_to_rgba c alpha) as [c'|] eqn:Hh; [|done]. cbn.
  intros [= <-]. cbn.
  exists xmin, xmax, alpha, c, c', x_scale, range_x.
  split_and!; try done.
  - destruct (decide (xmin = PNone)); [|congruence].
    destruct (item range_x 0) as [v|]; [|done]. cbn in Hxmin.
    exists v. split; congruence.
  - destruct (decide (xmax = PNone)); [|congruence].
    destruct (item range_x 1) as [v|]; [|done]. cbn in Hxmax.
    exists v. split; congruence.
Qed.

(** X20: the entry [y] of [pinfo] has no effect on what
    [geom_hline.draw] does. *)
Theorem hline_draw_ignores_y pinfo scales v :
  geom_hline.draw coord_range hex_to_rgba (<["y" := v]> pinfo) scales
  = geom_hline.draw coord_range hex_to_rgba pinfo scales.
Proof.
  unfold geom_hline.draw. by rewrite delete_insert_eq.
Qed.

(** X21: when [geom_hline.draw] returns, the line is drawn at the
    [yintercept] of [pinfo]; the keywords passed on are the entries of
    [pinfo] but [y], [yintercept], [xmin], [xmax] and [alpha]; and there
    is a scale for [x], also when both ends of the line are given. *)
Theorem hline_draw_keywords pinfo scales h :
  geom_hline.draw coord_range hex_to_rgba pinfo scales = Ok h →
  pinfo !! "yintercept" = Some (geom_hline.y h)
  ∧ dom (geom_hline.kwargs h)
    = dom pinfo ∖ {["y"; "yintercept"; "xmin"; "xmax"; "alpha"]}
  ∧ (∀ k, k ≠ "color" → k ∈ dom (geom_hline.kwargs h) →
          geom_hline.kwargs h !! k = pinfo !! k)
  ∧ is_Some (scales !! "x").
Proof.
  intros (xmin & xmax & alpha & c & c' & x_scale & range_x & Hy & _ & _ & _
          & Hc & Hs & _ & _ & _ & _ & Hk)%hline_draw_Ok.
  split; [done|]. rewrite Hk. split_and!.
  - rewrite dom_insert_L, !dom_delete_L.
    apply elem_of_dom_2 in Hc. set_solver.
  - intros k Hne. rewrite dom_insert_L, !dom_delete_L.
    rewrite lookup_insert_ne by done.
    intros Hin. rewrite !lookup_delete_ne; [done|..]; set_solver.
  - eauto.
Qed.

(** X22: the ends of the line [geom_hline.draw] draws: an end that
    [pinfo] gives is kept, an end that is [None] in [pinfo] is taken from
    the range of the [x] scale as it is there, the left end from its
    first element and the right end from its second. *)
Theorem hline_draw_ends pinfo scales h :
  geom_hline.draw coord_range hex_to_rgba pinfo scales = Ok h →
  ∃ xmin xmax x_scale range_x,
    pinfo !! "xmin" = Some xmin ∧ pinfo !! "xmax" = Some xmax
    ∧ scales !! "x" = Some x_scale ∧ coord_range x_scale = Ok range_x
    ∧ (xmin ≠ PNone → geom_hline.xmin h = xmin)
    ∧ (xmax ≠ PNone → geom_hline.xmax h = xmax)
    ∧ (xmin = PNone →
       ∃ v, item range_x 0 = Ok v ∧ geom_hline.xmin h = of_value v)
    ∧ (xmax = PNone →
       ∃ v, item range_x 1 = Ok v ∧ geom_hline.xmax h = of_value v).
Proof.
  intros (xmin & xmax & alpha & c & c' & x_scale & range_x & _ & Hmin & Hmax
          & _ & _ & Hs & Hr & _ & Hxmin & Hxmax & _)%hline_draw_Ok.
  exists xmin, xmax, x_scale, range_x.
  destruct (decide (xmin = PNone)) as [Hn1|Hn1];
    destruct (decide (xmax = PNone)) as [Hn2|Hn2];
    split_and!; done.
Qed.

End geom_draw_facts.

(** ** The further properties at the sample inputs *)

Section further_instances.
Import aes utils geom.

Lemma compute_aesthetics_PANEL_witness :
  ∃ evaled scales,
    layer.compute_aesthetics sample.no_new_scales sample.no_update
      (sample.layer_of ∅ [("x", AesStr "a")]) sample.three_rows
      (layer.mkGgplot [] ())
    = Ok (evaled, scales)
    ∧ ∃ panel,
        assoc "PANEL" (columns sample.three_rows) = Some panel
        ∧ assoc "PANEL" (columns evaled) = Some panel.
Proof.
  do 2 eexists. split; [reflexivity|].
  eapply (compute_aesthetics_PANEL sample.no_new_scales sample.no_update
            (sample.layer_of ∅ [("x", AesStr "a")]) sample.three_rows
            (layer.mkGgplot [] ())).
  reflexivity.
Defined.

Lemma compute_aesthetics_missing_column_witness :
  ∃ col,
    (∃ ae, (ae, AesStr col)
           ∈ layer_aesthetics
               (sample.layer_of (Scales := unit) ∅ [("x", AesStr "b")])
               (layer.mkGgplot [] ()))
    ∧ assoc col (columns sample.three_rows) = None
    ∧ layer.compute_aesthetics sample.no_new_scales sample.no_update
        (sample.layer_of ∅ [("x", AesStr "b")]) sample.three_rows
        (layer.mkGgplot [] ())
      = Raise (KeyError col).
Proof.
  apply compute_aesthetics_missing_column.
  - repeat constructor. cbn. eauto.
  - left. exists "b". split; reflexivity.
Defined.

Lemma compute_aesthetics_columns_witness :
  ∃ evaled,
    layer.compute_aesthetics sample.no_new_scales sample.no_update
      (sample.layer_of ∅ [("x", AesStr "a"); ("colour", AesStr "c")])
      sample.three_rows (layer.mkGgplot [] ())
    = Ok (evaled, ())
    ∧ (columns evaled).*1 = ["x"; "colour"; "PANEL"]
    ∧ assoc "PANEL" (columns evaled)
      = assoc "PANEL" (columns sample.three_rows)
    ∧ ∀ ae col,
        (ae, AesStr col)
        ∈ layer_aesthetics
            (sample.layer_of (Scales := unit) ∅
               [("x", AesStr "a"); ("colour", AesStr "c")])
            (layer.mkGgplot [] ()) →
        assoc ae (columns evaled) = assoc col (columns sample.three_rows).
Proof.
  apply (compute_aesthetics_columns sample.no_new_scales sample.no_update
           (sample.layer_of ∅ [("x", AesStr "a"); ("colour", AesStr "c")])
           sample.three_rows (layer.mkGgplot [] ())).
  - reflexivity.
  - repeat constructor; cbn; eexists; (split; [reflexivity | cbn; eauto]).
  - vm_compute. repeat constructor; rewrite ?elem_of_cons, ?elem_of_nil;
      intros H; repeat destruct H as [H|H]; discriminate || done.
  - cbn. eauto.
Defined.

Lemma map_statistic_adds_nothing_witness :
  ∃ out scales,
    layer.map_statistic sample.no_new_scales sample.unbound_strip_dots
      (sample.layer_of ∅ [("x", AesStr "a")]) sample.three_rows
      (layer.mkGgplot [] ())
    = Ok (out, scales)
    ∧ out = sample.three_rows ∧ scales = ()
    ∧ is_calculated_aes
        (layer.stat_aesthetics
           (sample.layer_of (Scales := unit) ∅ [("x", AesStr "a")])
           (layer.mkGgplot [] ())) = [].
Proof.
  do 2 eexists. split; [reflexivity|].
  apply (map_statistic_adds_nothing sample.no_new_scales
           sample.unbound_strip_dots
           (sample.layer_of ∅ [("x", AesStr "a")]) sample.three_rows
           (layer.mkGgplot [] ()) (NameError "strip_dots"));
    [reflexivity | done | reflexivity].
Defined.

Lemma map_statistic_strip_dots_raises_witness :
  layer.map_statistic sample.no_new_scales sample.unbound_strip_dots
    (sample.layer_of ∅ [("y", AesStr "..a..")]) sample.three_rows
    (layer.mkGgplot [] ())
  = Raise (NameError "strip_dots").
Proof.
  apply map_statistic_strip_dots_raises; [reflexivity | done | done].
Defined.

Lemma add_group_single_group_witness :
  group_at (layer.add_group sample.numbers_only) 1 = Some (of_Z 1).
Proof.
  apply add_group_single_group; [done | reflexivity | | cbn; lia].
  constructor; [left|constructor]. cbn. unfold discrete_dtypes.
  rewrite !elem_of_cons, elem_of_nil. intros [?|[?|[?|[]]]]; discriminate.
Defined.

Lemma limits_of_continuous_range_witness :
  ∃ lo hi : Z,
    scale_xy.limits sample.scale_of_numbers
    = Ok (Some (of_Z <$> seqZ lo (hi + 1 - lo)))
    ∧ (lo ≤ hi)%Z
    ∧ ((inject_Z lo <= Q2Qc (1 # 2))%Q ∧ (inject_Z lo <= Q2Qc (7 # 2))%Q
       ∧ ((Q2Qc (1 # 2) < inject_Z (lo + 1))%Q
          ∨ (Q2Qc (7 # 2) < inject_Z (lo + 1))%Q))
    ∧ ((Q2Qc (1 # 2) <= inject_Z hi)%Q ∧ (Q2Qc (7 # 2) <= inject_Z hi)%Q
       ∧ ((inject_Z (hi - 1) < Q2Qc (1 # 2))%Q
          ∨ (inject_Z (hi - 1) < Q2Qc (7 # 2))%Q)).
Proof.
  apply limits_of_continuous_range; try reflexivity;
    split; vm_compute; discriminate.
Defined.

(** The limits of the sample: from 0, the floor of 1/2, to 4, the ceiling
    of 7/2. *)
Example limits_of_numbers_sample :
  scale_xy.limits sample.scale_of_numbers
  = Ok (Some [of_Z 0; of_Z 1; of_Z 2; of_Z 3; of_Z 4]).
Proof. vm_compute. reflexivity. Qed.

Lemma map_unresolved_TypeError_witness :
  scale_xy.map sample.fresh_scale (mkSeries object_ [VStr "a"]) None
  = Raise TypeError.
Proof.
  apply map_unresolved_TypeError; try reflexivity.
  by repeat constructor.
Defined.

Lemma path_lines_chain_witness :
  ∃ segs,
    geom_path.lines (PList [of_Z 1; of_Z 2; of_Z 3])
      (PList [of_Z 4; of_Z 5; of_Z 6]) = Ok segs
    ∧ length segs = 2
    ∧ (∀ i s, segs !! i = Some s →
              [of_Z 1; of_Z 2; of_Z 3] !! i = Some s.1.1
              ∧ [of_Z 4; of_Z 5; of_Z 6] !! i = Some s.1.2
              ∧ [of_Z 1; of_Z 2; of_Z 3] !! S i = Some s.2.1
              ∧ [of_Z 4; of_Z 5; of_Z 6] !! S i = Some s.2.2)
    ∧ (∀ i s t, segs !! i = Some s → segs !! S i = Some t → s.2 = t.1).
Proof.
  apply (path_lines_chain [of_Z 1; of_Z 2; of_Z 3]
           [of_Z 4; of_Z 5; of_Z 6]).
  cbn. lia.
Defined.

Lemma path_draw_appends_witness :
  ∃ ax' x y c alpha c' lw ls segs,
    geom_path.draw sample.keep_color sample.path_pinfo [] = Ok ax'
    ∧ sample.path_pinfo !! "x" = Some x ∧ sample.path_pinfo !! "y" = Some y
    ∧ sample.path_pinfo !! "color" = Some c
    ∧ sample.path_pinfo !! "alpha" = Some alpha
    ∧ sample.path_pinfo !! "linewidth" = Some lw
    ∧ sample.path_pinfo !! "linestyle" = Some ls
    ∧ sample.keep_color c alpha = Ok c'
    ∧ geom_path.lines x y = Ok segs
    ∧ ax' = [] ++ [geom_path.mkLineCollection segs c' lw ls].
Proof.
  eexists.
  destruct (path_draw_appends sample.keep_color sample.path_pinfo [] _
              eq_refl)
    as (x & y & c & alpha & c' & lw & ls & segs & H).
  exists x, y, c, alpha, c', lw, ls, segs. split; [reflexivity | exact H].
Defined.

Lemma hline_draw_keywords_witness :
  ∃ h,
    geom_hline.draw sample.range_of sample.keep_color sample.hline_pinfo
      sample.x_scales = Ok h
    ∧ sample.hline_pinfo !! "yintercept" = Some (geom_hline.y h)
    ∧ dom (geom_hline.kwargs h)
      = dom sample.hline_pinfo
          ∖ {["y"; "yintercept"; "xmin"; "xmax"; "alpha"]}
    ∧ (∀ k, k ≠ "color" → k ∈ dom (geom_hline.kwargs h) →
            geom_hline.kwargs h !! k = sample.hline_pinfo !! k)
    ∧ is_Some (sample.x_scales !! "x").
Proof.
  eexists. split; [reflexivity|].
  apply (hline_draw_keywords sample.range_of sample.keep_color).
  reflexivity.
Defined.

Lemma hline_draw_ends_witness :
  ∃ h xmin xmax x_scale range_x,
    geom_hline.draw sample.range_of sample.keep_color sample.hline_pinfo
      sample.x_scales = Ok h
    ∧ sample.hline_pinfo !! "xmin" = Some xmin
    ∧ sample.hline_pinfo !! "xmax" = Some xmax
    ∧ sample.x_scales !! "x" = Some x_scale
    ∧ sample.range_of x_scale = Ok range_x
    ∧ (xmin ≠ PNone → geom_hline.xmin h = xmin)
    ∧ (xmax ≠ PNone → geom_hline.xmax h = xmax)
    ∧ (xmin = PNone →
       ∃ v, item range_x 0 = Ok v ∧ geom_hline.xmin h = of_value v)
    ∧ (xmax = PNone →
       ∃ v, item range_x 1 = Ok v ∧ geom_hline.xmax h = of_value v).
Proof.
  eexists.
  destruct (hline_draw_ends sample.range_of sample.keep_color
              sample.hline_pinfo sample.x_scales _ eq_refl)
    as (xmin & xmax & x_scale & range_x & H).
  exists xmin, xmax, x_scale, range_x. split; [reflexivity | exact H].
Defined.

(** The line of the sample spans the range of the scale, at 5. *)
Example hline_draw_sample :
  ∃ kwargs,
    geom_hline.draw sample.range_of sample.keep_color sample.hline_pinfo
      sample.x_scales
    = Ok (geom_hline.mkHlines (PVal (of_Z 5)) (PVal (of_Z 0))
            (PVal (of_Z 10)) kwargs).
Proof. eexists. vm_compute. reflexivity. Qed.

End further_instances.
